(** * Health endpoints and logging configuration of the RAG Q&A service

    A shallow embedding of [app/api/routes/health.py] and
    [app/utils/logger.py], and the properties of the readiness
    verification subsystem checked against it. *)

From stdpp Require Import base strings list gmap pretty.
From Stdlib Require Import ZArith Lia Ascii.

Local Open Scope Z_scope.

(** * Python values shared by both modules *)

(** Severity numbers of the standard [logging] module. *)
Definition NOTSET : Z := 0.
Definition DEBUG : Z := 10.
Definition INFO : Z := 20.
Definition WARNING : Z := 30.
Definition ERROR : Z := 40.
Definition CRITICAL : Z := 50.

(** Exceptions, by the three classes the handlers of [readiness_check]
    tell apart: [fastapi.HTTPException], any other subclass of [Exception]
    (class name and message), and a [BaseException] outside [Exception]
    (KeyboardInterrupt, SystemExit). *)
Inductive exn : Type :=
| HTTPException (status_code : Z) (detail : string)
| PyException (cls : string) (text : string)
| PyBaseException (cls : string) (text : string).

Global Instance exn_eq_dec : EqDecision exn.
Proof. solve_decision. Defined.

(** [isinstance(e, HTTPException)] and [isinstance(e, Exception)]. *)
Definition isinstance_HTTPException (e : exn) : bool :=
  match e with HTTPException _ _ => true | _ => false end.

Definition isinstance_Exception (e : exn) : bool :=
  match e with PyBaseException _ _ => false | _ => true end.

(** [str(e)]: the message of an ordinary exception; Starlette prints an
    HTTPException as [f"{status_code}: {detail}"]. *)
Definition str (e : exn) : string :=
  match e with
  | HTTPException c d => pretty c +:+ ": " +:+ d
  | PyException _ t => t
  | PyBaseException _ t => t
  end.

(** The result of a call: a value or a raised exception. *)
Inductive outcome (A : Type) : Type :=
| Return (a : A)
| Raise (e : exn).
Global Arguments Return {A} a.
Global Arguments Raise {A} e.

(** * app/api/routes/health.py *)

Module health.

(** What a request does to the outside, in order: calls on the module
    logger and calls on the vector store. *)
Inductive event : Type :=
| Log (levelno : Z) (msg : string)
| VectorStoreService_init
| VectorStoreService_health_check
| VectorStoreService_get_collection_info.

Global Instance event_eq_dec : EqDecision event.
Proof. solve_decision. Defined.

(** A route handler: its outcome and the events it emitted. *)
Definition M (A : Type) : Type := outcome A * list event.

Definition raise {A} (e : exn) : M A := (Raise e, []).
Definition emit (ev : event) : M unit := (Return tt, [ev]).

Global Instance M_ret : MRet M := λ A a, (Return a, []).

Global Instance M_bind : MBind M := λ A B k m,
  match m with
  | (Return a, t1) => let '(o, t2) := k a in (o, t1 ++ t2)
  | (Raise e, t1) => (Raise e, t1)
  end.

(** [try: body except C1: h1 except C2: h2]: the first clause whose class
    the exception is an instance of handles it; with none, it propagates. *)
Fixpoint except_clauses {A} (clauses : list ((exn → bool) * (exn → M A)))
    (e : exn) : M A :=
  match clauses with
  | [] => raise e
  | (isinstance, handler) :: rest =>
      if isinstance e then handler e else except_clauses rest e
  end.

Definition try_except {A} (body : M A)
    (clauses : list ((exn → bool) * (exn → M A))) : M A :=
  match body with
  | (Return a, t) => (Return a, t)
  | (Raise e, t) => let '(o, t') := except_clauses clauses e in (o, t ++ t')
  end.

(** A call to an external collaborator: the event, then what it answered. *)
Definition call {A} (ev : event) (answer : outcome A) : M A := (answer, [ev]).

(** [logger.debug], [logger.info], [logger.error] on the module logger. *)
Definition logger_debug (msg : string) : M unit := emit (Log DEBUG msg).
Definition logger_info (msg : string) : M unit := emit (Log INFO msg).
Definition logger_error (msg : string) : M unit := emit (Log ERROR msg).

(** A [datetime]: seconds of wall-clock time and the zone the value is
    attached to ([None] for a naive value). *)
Record datetime : Type := { wall : Z; tzinfo : option Z }.

Section Endpoints.

(** The opaque payload of the vector store. *)
Context {CollectionInfo : Type}.

(** Modelled from the spec: [app.core.vector_store.VectorStoreService] is
    a black box exposing [health_check() -> bool] and
    [get_collection_info() -> CollectionInfo]; what its constructor and
    its two methods answer during one request. *)
Record VectorStoreService : Type := {
  init : outcome unit;
  vs_health_check : outcome bool;
  get_collection_info : outcome CollectionInfo
}.

(** What the process reads from outside during one request: the vector
    store, the clock (seconds since the epoch, and the offset of the local
    zone from UTC) and [app.__version__]. *)
Record World : Type := {
  vector_store : VectorStoreService;
  utc_seconds : Z;
  utcoffset : Z;
  __version__ : string
}.

(** Modelled from the spec: [app.api.schemas.HealthResponse] has the
    attributes status, timestamp and version. *)
Record HealthResponse : Type := {
  h_status : string;
  h_timestamp : datetime;
  h_version : string
}.

(** Modelled from the spec: [app.api.schemas.ReadinessResponse] has a
    status label, the connected flag and optional collection info. *)
Record ReadinessResponse : Type := {
  status : string;
  qdrant_connected : bool;
  collection_info : option CollectionInfo
}.

(** [datetime.now()]: the current local date and time, naive. *)
Definition datetime_now (w : World) : M datetime :=
  mret {| wall := utc_seconds w + utcoffset w; tzinfo := None |}.

(** The capture time expressed in UTC, as [datetime.utcnow()] gives it. *)
Definition datetime_utcnow (w : World) : datetime :=
  {| wall := utc_seconds w; tzinfo := None |}.

Definition health_check (w : World) : M HealthResponse :=
  logger_info "Health check requested" ;;
  now ← datetime_now w ;
  mret {| h_status := "healthy"; h_timestamp := now; h_version := __version__ w |}.

(** The body of the [try] block of [readiness_check]. *)
Definition readiness_try (w : World) : M ReadinessResponse :=
  call VectorStoreService_init (init (vector_store w)) ;;
  is_healthy ← call VectorStoreService_health_check
                 (vs_health_check (vector_store w)) ;
  (if negb is_healthy
   then raise (HTTPException 503 "Vector store is not healthy")
   else mret tt) ;;
  info ← call VectorStoreService_get_collection_info
           (get_collection_info (vector_store w)) ;
  mret {| status := "ready"; qdrant_connected := true;
         collection_info := Some info |}.

Definition readiness_check (w : World) : M ReadinessResponse :=
  logger_debug "Readiness check requested" ;;
  try_except (readiness_try w)
    [ (isinstance_HTTPException, λ e, raise e);
      (isinstance_Exception, λ e,
         logger_error ("Readiness check failed: " +:+ str e) ;;
         raise (HTTPException 503 ("Service not ready: " +:+ str e))) ].

(** ** What FastAPI sends for the outcome of a route handler *)

Inductive json : Type :=
| JNull
| JBool (b : bool)
| JStr (s : string)
| JInfo (info : CollectionInfo).

Record http_response : Type := {
  code : Z;
  body : list (string * json)
}.

(** The field of a JSON object, if it has it. *)
Fixpoint field (name : string) (o : list (string * json)) : option json :=
  match o with
  | [] => None
  | (k, v) :: rest => if decide (k = name) then Some v else field name rest
  end.

Definition readiness_json (r : ReadinessResponse) : list (string * json) :=
  [ ("status", JStr (status r));
    ("qdrant_connected", JBool (qdrant_connected r));
    ("collection_info",
       match collection_info r with Some i => JInfo i | None => JNull end) ].

(** A returned model is sent with 200; an HTTPException with its own
    status code and its detail; any other [Exception] as a bare 500; a
    [BaseException] is no response at all. *)
Definition fastapi_response (o : outcome ReadinessResponse)
    : option http_response :=
  match o with
  | Return r => Some {| code := 200; body := readiness_json r |}
  | Raise (HTTPException c d) => Some {| code := c; body := [("detail", JStr d)] |}
  | Raise (PyException _ _) => Some {| code := 500; body := [] |}
  | Raise (PyBaseException _ _) => None
  end.

(** The log lines of one severity among the events of a request. *)
Definition log_lines (levelno : Z) (t : list event) : list string :=
  omap (λ ev, match ev with
              | Log l msg => if decide (l = levelno) then Some msg else None
              | _ => None
              end) t.

(** The calls made on the vector store among the events of a request. *)
Definition is_probe_call (ev : event) : bool :=
  match ev with Log _ _ => false | _ => true end.

Definition probe_calls (t : list event) : list event :=
  List.filter is_probe_call t.

End Endpoints.

Global Arguments VectorStoreService : clear implicits.
Global Arguments World : clear implicits.
Global Arguments ReadinessResponse : clear implicits.
Global Arguments json : clear implicits.
Global Arguments http_response : clear implicits.

End health.

(** * app/utils/logger.py *)

Module logger.

Local Open Scope nat_scope.

(** ** Strings *)

(** [str.upper()] on ASCII text: a to z become A to Z. *)
Definition upper_ascii (c : ascii) : ascii :=
  let n := nat_of_ascii c in
  if (97 <=? n) && (n <=? 122) then ascii_of_nat (n - 32) else c.

Fixpoint upper (s : string) : string :=
  match s with
  | EmptyString => EmptyString
  | String c rest => String (upper_ascii c) (upper rest)
  end.

(** [s.isascii()]: every character is below 128. *)
Definition isascii_char (c : ascii) : bool :=
  match c with Ascii _ _ _ _ _ _ _ b7 => negb b7 end.

Fixpoint isascii (s : string) : bool :=
  match s with
  | EmptyString => true
  | String c rest => isascii_char c && isascii rest
  end.

(** ** The [logging] module, as far as [logger.py] uses it *)

(** The values [getattr(logging, ...)] can hand to [setLevel]. *)
Inductive pyval : Type :=
| PyInt (n : Z)
| PyStr (s : string)
| PyDict.

Fixpoint assoc {V} (key : string) (l : list (string * V)) : option V :=
  match l with
  | [] => None
  | (k, v) :: rest => if decide (k = key) then Some v else assoc key rest
  end.

(** The attributes of the [logging] module whose names [str.upper()]
    leaves unchanged: only these can be reached by
    [getattr(logging, log_level.upper(), ...)]. *)
Definition logging_namespace : list (string * pyval) :=
  [ ("CRITICAL", PyInt CRITICAL); ("FATAL", PyInt CRITICAL);
    ("ERROR", PyInt ERROR);
    ("WARNING", PyInt WARNING); ("WARN", PyInt WARNING);
    ("INFO", PyInt INFO); ("DEBUG", PyInt DEBUG); ("NOTSET", PyInt NOTSET);
    ("BASIC_FORMAT", PyStr "%(levelname)s:%(name)s:%(message)s");
    ("_STYLES", PyDict) ].

(** [getattr(logging, name, default)]. *)
Definition getattr_logging (name : string) (default : pyval) : pyval :=
  match assoc name logging_namespace with
  | Some v => v
  | None => default
  end.

(** [logging._nameToLevel]. *)
Definition _nameToLevel : list (string * Z) :=
  [ ("CRITICAL", CRITICAL); ("FATAL", CRITICAL); ("ERROR", ERROR);
    ("WARN", WARNING); ("WARNING", WARNING); ("INFO", INFO);
    ("DEBUG", DEBUG); ("NOTSET", NOTSET) ].

(** [logging._checkLevel]: an int is a level, a string must name one. *)
Definition _checkLevel (level : pyval) : outcome Z :=
  match level with
  | PyInt n => Return n
  | PyStr s =>
      match assoc s _nameToLevel with
      | Some n => Return n
      | None => Raise (PyException "ValueError" ("Unknown level: '" +:+ s +:+ "'"))
      end
  | PyDict =>
      Raise (PyException "TypeError" "Level not an integer or a valid string")
  end.

Record Formatter : Type := { fmt : string; datefmt : string }.

(** A handler object: its identity and the formatter set on it. *)
Record Handler : Type := {
  handler_id : nat;
  formatter : option Formatter
}.

(** A reference to a logger object: the root logger [logging.root], or
    a Logger created by the manager, known by its identity. *)
Inductive logger_ref : Type :=
| RootLogger
| LoggerObj (id : nat).

Global Instance logger_ref_eq_dec : EqDecision logger_ref.
Proof. solve_decision. Defined.

(** An entry of [Logger.manager.loggerDict]: a Logger object, or the
    PlaceHolder kept for a dotted ancestor. *)
Inductive entry : Type :=
| ELogger (id : nat)
| EPlaceHolder.

(** The process-wide state behind [logger.py]: the level and the handler
    list of the root logger, the [level] attribute of every other Logger
    object, the registry of named loggers, the next free object identity,
    and the cache that [lru_cache] keeps for [get_logger], most recently
    used first. *)
Record state : Type := {
  root_level : Z;
  root_handlers : list Handler;
  levels : gmap nat Z;
  loggerDict : gmap string entry;
  next_id : nat;
  cache : list (string * logger_ref)
}.

(** The state after [import logging]: [root = RootLogger(WARNING)]. *)
Definition initial_state : state :=
  {| root_level := WARNING; root_handlers := []; levels := ∅;
     loggerDict := ∅; next_id := 0; cache := [] |}.

Definition set_root_level (n : Z) (st : state) : state :=
  {| root_level := n; root_handlers := root_handlers st; levels := levels st;
     loggerDict := loggerDict st; next_id := next_id st; cache := cache st |}.

Definition set_root_handlers (hs : list Handler) (st : state) : state :=
  {| root_level := root_level st; root_handlers := hs; levels := levels st;
     loggerDict := loggerDict st; next_id := next_id st; cache := cache st |}.

Definition set_levels (ls : gmap nat Z) (st : state) : state :=
  {| root_level := root_level st; root_handlers := root_handlers st;
     levels := ls; loggerDict := loggerDict st; next_id := next_id st;
     cache := cache st |}.

Definition set_loggerDict (d : gmap string entry) (st : state) : state :=
  {| root_level := root_level st; root_handlers := root_handlers st;
     levels := levels st; loggerDict := d; next_id := next_id st;
     cache := cache st |}.

Definition set_next_id (n : nat) (st : state) : state :=
  {| root_level := root_level st; root_handlers := root_handlers st;
     levels := levels st; loggerDict := loggerDict st; next_id := n;
     cache := cache st |}.

Definition set_cache (c : list (string * logger_ref)) (st : state) : state :=
  {| root_level := root_level st; root_handlers := root_handlers st;
     levels := levels st; loggerDict := loggerDict st; next_id := next_id st;
     cache := c |}.

(** A function of [logger.py]: from the state to an outcome and the state
    it leaves. *)
Definition L (A : Type) : Type := state → outcome A * state.

Global Instance L_ret : MRet L := λ A a st, (Return a, st).

Global Instance L_bind : MBind L := λ A B k m st,
  match m st with
  | (Return a, st') => k a st'
  | (Raise e, st') => (Raise e, st')
  end.

Definition get : L state := λ st, (Return st, st).
Definition modify (f : state → state) : L unit := λ st, (Return tt, f st).
Definition lift {A} (o : outcome A) : L A := λ st, (o, st).

(** A fresh object identity. *)
Definition new_object : L nat :=
  λ st, (Return (next_id st), set_next_id (S (next_id st)) st).

(** [Logger.setLevel(level)] on the logger [ref]. *)
Definition setLevel (ref : logger_ref) (level : pyval) : L unit :=
  n ← lift (_checkLevel level) ;
  modify (λ st, match ref with
                | RootLogger => set_root_level n st
                | LoggerObj id => set_levels (<[id := n]> (levels st)) st
                end).

(** [hdlr in handlers] and [handlers.remove(hdlr)]: handlers compare by
    identity, and [list.remove] takes out the first occurrence. *)
Definition handler_in (h : Handler) (hs : list Handler) : bool :=
  existsb (λ h', Nat.eqb (handler_id h') (handler_id h)) hs.

Fixpoint list_remove (h : Handler) (hs : list Handler) : list Handler :=
  match hs with
  | [] => []
  | h' :: rest =>
      if Nat.eqb (handler_id h') (handler_id h) then rest
      else h' :: list_remove h rest
  end.

(** [Logger.removeHandler] and [Logger.addHandler] on the handler list. *)
Definition removeHandler (h : Handler) (hs : list Handler) : list Handler :=
  if handler_in h hs then list_remove h hs else hs.

Definition addHandler (h : Handler) (hs : list Handler) : list Handler :=
  if handler_in h hs then hs else hs ++ [h].

(** [for handler in root_logger.handlers: root_logger.removeHandler(handler)].
    The list iterator holds an index into the live list: each round reads
    the element at the index, if there is one, and moves the index on by
    one, while the body shortens the list it is reading. *)
Fixpoint remove_loop (fuel : nat) (i : nat) (hs : list Handler) : list Handler :=
  match fuel with
  | O => hs
  | S fuel' =>
      match hs !! i with
      | None => hs
      | Some handler => remove_loop fuel' (S i) (removeHandler handler hs)
      end
  end.

(** The loop reads at most one element per index below the length. *)
Definition remove_existing_handlers (hs : list Handler) : list Handler :=
  remove_loop (length hs) 0 hs.

(** [logging.StreamHandler()]. *)
Definition StreamHandler : L Handler :=
  id ← new_object ;
  mret {| handler_id := id; formatter := None |}.

Definition setFormatter (f : Formatter) (h : Handler) : Handler :=
  {| handler_id := handler_id h; formatter := Some f |}.

(** The positions of "." in a name, in increasing order from [i]. *)
Fixpoint dots_from (i : nat) (s : string) : list nat :=
  match s with
  | EmptyString => []
  | String c rest =>
      if Ascii.eqb c "." then i :: dots_from (S i) rest
      else dots_from (S i) rest
  end.

(** The values [i] takes in [Manager._fixupParents]: [name.rfind(".")],
    then [name.rfind(".", 0, i - 1)] each round; [ps] are the positions of
    "." from the last to the first, [bound] the previous [i]. *)
Fixpoint rfind_chain (bound : option nat) (ps : list nat) : list nat :=
  match ps with
  | [] => []
  | p :: rest =>
      match bound with
      | None => p :: rfind_chain (Some p) rest
      | Some i =>
          if p + 1 <? i then p :: rfind_chain (Some p) rest
          else rfind_chain bound rest
      end
  end.

(** The loop of [Manager._fixupParents]: a PlaceHolder is left for each
    dotted ancestor that has no entry, up to the first ancestor that is a
    Logger. *)
Fixpoint _fixupParents_loop (name : string) (positions : list nat)
    (d : gmap string entry) : gmap string entry :=
  match positions with
  | [] => d
  | i :: rest =>
      if 0 <? i then
        let substr := String.substring 0 i name in
        match d !! substr with
        | None => _fixupParents_loop name rest (<[substr := EPlaceHolder]> d)
        | Some (ELogger _) => d
        | Some EPlaceHolder => _fixupParents_loop name rest d
        end
      else d
  end.

Definition _fixupParents (name : string) (d : gmap string entry)
    : gmap string entry :=
  _fixupParents_loop name (rfind_chain None (reverse (dots_from 0 name))) d.

(** [Manager.getLogger(name)]: the registered Logger, or a new one that
    is registered under the name (also in place of a PlaceHolder). *)
Definition Manager_getLogger (name : string) : L logger_ref :=
  st ← get ;
  match loggerDict st !! name with
  | Some (ELogger id) => mret (LoggerObj id)
  | _ =>
      id ← new_object ;
      modify (λ st, set_levels (<[id := NOTSET]> (levels st)) st) ;;
      modify (λ st, set_loggerDict
                      (_fixupParents name (<[name := ELogger id]> (loggerDict st)))
                      st) ;;
      mret (LoggerObj id)
  end.

(** [logging.getLogger(name)]: the root logger for no name and for the
    root's own name, the manager's logger otherwise. *)
Definition logging_getLogger (name : string) : L logger_ref :=
  if decide (name = "" ∨ name = "root") then mret RootLogger
  else Manager_getLogger name.

(** ** The functions of [logger.py] *)

Definition setup_logging (log_level : string) : L unit :=
  let formatter :=
    {| fmt := "%(asctime)s - %(name)s - %(levelname)s - %(message)s";
       datefmt := "%Y-%m-%d %H:%M:%S" |} in
  root_logger ← logging_getLogger "" ;
  setLevel root_logger (getattr_logging (upper log_level) (PyInt INFO)) ;;
  modify (λ st, set_root_handlers
                  (remove_existing_handlers (root_handlers st)) st) ;;
  stream_handler ← StreamHandler ;
  let stream_handler := setFormatter formatter stream_handler in
  modify (λ st, set_root_handlers
                  (addHandler stream_handler (root_handlers st)) st) ;;
  (l ← logging_getLogger "httpx" ; setLevel l (PyInt WARNING)) ;;
  (l ← logging_getLogger "httpcore" ; setLevel l (PyInt WARNING)) ;;
  (l ← logging_getLogger "openai" ; setLevel l (PyInt WARNING)) ;;
  (l ← logging_getLogger "qdrant_client" ; setLevel l (PyInt WARNING)) ;;
  (l ← logging_getLogger "urllib3" ; setLevel l (PyInt WARNING)).

Definition setup_log (log_level : string) : L unit :=
  setup_logging log_level.

(** [functools.lru_cache] without arguments keeps 128 entries. *)
Definition maxsize : nat := 128.

Definition cache_remove (key : string) (c : list (string * logger_ref))
    : list (string * logger_ref) :=
  List.filter (λ kv, negb (String.eqb (fst kv) key)) c.

(** [@lru_cache]: a hit moves the entry to the most recent end; a miss
    calls the function and stores its result, dropping the least recently
    used entry when the cache is full. *)
Definition lru_cache (f : string → L logger_ref) (key : string)
    : L logger_ref :=
  st ← get ;
  match assoc key (cache st) with
  | Some result =>
      modify (λ st, set_cache ((key, result) :: cache_remove key (cache st)) st) ;;
      mret result
  | None =>
      result ← f key ;
      modify (λ st, set_cache (take maxsize ((key, result) :: cache st)) st) ;;
      mret result
  end.

Definition get_logger (name : string) : L logger_ref :=
  lru_cache logging_getLogger name.

(** A class, as far as [LoggerMixin] reads it: the module that defines
    it and its [__name__]. *)
Record pyclass : Type := { class_module : string; class_name : string }.

(** The property [LoggerMixin.logger] of an object of class [cls]:
    [get_logger(self.__class__.__name__)]. *)
Definition LoggerMixin_logger (cls : pyclass) : L logger_ref :=
  get_logger (class_name cls).

(** ** Sequences of calls made during the life of the process *)

Inductive call : Type :=
| Call_setup_logging (log_level : string)
| Call_setup_log (log_level : string)
| Call_get_logger (name : string)
| Call_logging_getLogger (name : string).

Definition exec (st : state) (c : call) : state :=
  match c with
  | Call_setup_logging lvl => snd (setup_logging lvl st)
  | Call_setup_log lvl => snd (setup_log lvl st)
  | Call_get_logger name => snd (get_logger name st)
  | Call_logging_getLogger name => snd (logging_getLogger name st)
  end.

Definition exec_all (cs : list call) (st : state) : state :=
  foldl exec st cs.

End logger.

(** * Vocabulary of the properties *)

Module scenarios.
Import health.

(** An exception that [readiness_check] lets out as a 503: an ordinary
    [Exception], which it wraps, or an HTTPException that already
    carries 503, which it re-raises. *)
Definition leaves_as_503 (e : exn) : bool :=
  match e with
  | HTTPException c _ => Z.eqb c 503
  | PyException _ _ => true
  | PyBaseException _ _ => false
  end.

(** An exception of the second [except] clause: an instance of
    [Exception] that is not an HTTPException. *)
Definition unexpected_failure (e : exn) : bool :=
  isinstance_Exception e && negb (isinstance_HTTPException e).

(** A call that returns, or raises only what [allowed] admits. *)
Definition raises_only {A} (allowed : exn → bool) (o : outcome A) : bool :=
  match o with
  | Return _ => true
  | Raise e => allowed e
  end.

(** The collection snapshot of the end-to-end scenarios. *)
Record docs_info : Type := { name : string; count : Z }.

Definition docs : docs_info := {| name := "docs"; count := 100 |}.

Definition world (vs : VectorStoreService docs_info) : World docs_info :=
  {| vector_store := vs; utc_seconds := 1762243200; utcoffset := 3600;
     __version__ := "0.1.0" |}.

Definition healthy_store : VectorStoreService docs_info :=
  {| init := Return tt; vs_health_check := Return true;
     get_collection_info := Return docs |}.

Definition unhealthy_store : VectorStoreService docs_info :=
  {| init := Return tt; vs_health_check := Return false;
     get_collection_info := Return docs |}.

Definition connection_reset : exn :=
  PyException "ConnectionResetError" "ConnectionReset: reset by peer".

Definition reset_store : VectorStoreService docs_info :=
  {| init := Return tt; vs_health_check := Return true;
     get_collection_info := Raise connection_reset |}.

Definition not_found : exn := HTTPException 404 "Collection not found".

Definition not_found_store : VectorStoreService docs_info :=
  {| init := Return tt; vs_health_check := Return true;
     get_collection_info := Raise not_found |}.

Definition unreachable_store : VectorStoreService docs_info :=
  {| init := Raise connection_reset; vs_health_check := Return true;
     get_collection_info := Return docs |}.

End scenarios.


Module logger_vocabulary.
Import logger.

(** The severity names the docstring of [setup_logging] lists. *)
Definition recognized_levels : list string :=
  ["DEBUG"; "INFO"; "WARNING"; "ERROR"; "CRITICAL"].

(** What a run of [m] from [st] establishes: [Q] of its result and of the
    state it leaves when it returns, [E] of the state when it raises. *)
Definition post {A} (m : L A) (st : state)
    (Q : A → state → Prop) (E : state → Prop) : Prop :=
  match m st with
  | (Return a, st') => Q a st'
  | (Raise _, st') => E st'
  end.

(** The root logger is as before. *)
Definition same_root (st st' : state) : Prop :=
  root_level st' = root_level st ∧ root_handlers st' = root_handlers st.

(** Every Logger the registry holds is still held under its name. *)
Definition dict_grows (st st' : state) : Prop :=
  ∀ name id, loggerDict st !! name = Some (ELogger id) →
             loggerDict st' !! name = Some (ELogger id).

(** The registry grew and the cache of [get_logger] is untouched. *)
Definition grows (st st' : state) : Prop :=
  dict_grows st st' ∧ cache st' = cache st.

(** [m] only lets the registry grow, whether it returns or raises. *)
Definition steady {A} (m : L A) : Prop :=
  ∀ st, post m st (λ _ st', grows st st') (λ st', grows st st').

(** [h] is the logger that [logging.getLogger(name)] stands for in [st]. *)
Definition resolves (st : state) (name : string) (h : logger_ref) : Prop :=
  if decide (name = "" ∨ name = "root") then h = RootLogger
  else ∃ id, h = LoggerObj id ∧ loggerDict st !! name = Some (ELogger id).

(** Every entry of the cache of [get_logger] is the logger of its name. *)
Definition cache_consistent (st : state) : Prop :=
  ∀ name h, (name, h) ∈ cache st → resolves st name h.

(** The handlers the loop of [setup_logging] leaves of distinct
    handlers: the second, the fourth, and so on. *)
Fixpoint every_second (hs : list Handler) : list Handler :=
  match hs with
  | _ :: h :: rest => h :: every_second rest
  | _ => []
  end.

(** A root logger that already has two handlers when [setup_logging] is
    called, as after a file handler and a console handler were added. *)
Definition file_handler : Handler := {| handler_id := 0; formatter := None |}.
Definition console_handler : Handler := {| handler_id := 1; formatter := None |}.

Definition two_handlers_state : state :=
  set_next_id 2
    (set_root_handlers (addHandler console_handler (addHandler file_handler []))
       initial_state).

(** The handler [setup_logging] creates when the next free identity
    is [id]. *)
Definition stream_handler (id : nat) : Handler :=
  {| handler_id := id;
     formatter :=
       Some {| fmt := "%(asctime)s - %(name)s - %(levelname)s - %(message)s";
               datefmt := "%Y-%m-%d %H:%M:%S" |} |}.

(** Handlers are distinct objects, all older than the next identity. *)
Definition handlers_wf (st : state) : Prop :=
  NoDup (handler_id <$> root_handlers st)
  ∧ ∀ h, h ∈ root_handlers st → (handler_id h < next_id st)%nat.

(** More distinct logger names than the cache of [get_logger] holds. *)
Definition module_names : list string :=
  (λ n : nat, "app.module" +:+ pretty n) <$> seq 0 (S maxsize).

End logger_vocabulary.

Module logger_invariants.
Import logger logger_vocabulary.

(** The names [logging.getLogger] answers with the root logger. *)
Definition root_name (name : string) : Prop := name = "" ∨ name = "root".

(** Every Logger of the registry is older than the next identity, and no
    two names share a Logger object. *)
Definition registry_wf (st : state) : Prop :=
  (∀ name id, loggerDict st !! name = Some (ELogger id) → (id < next_id st)%nat)
  ∧ (∀ n1 n2 id, loggerDict st !! n1 = Some (ELogger id) →
                 loggerDict st !! n2 = Some (ELogger id) → n1 = n2).

(** From [st] to [st'] nothing happened but registrations: the root
    logger is as it was, every registered Logger is still registered and
    has the level it had, and identities were only handed out. *)
Definition only_registers (st st' : state) : Prop :=
  same_root st st'
  ∧ dict_grows st st'
  ∧ (next_id st ≤ next_id st')%nat
  ∧ ∀ name id, loggerDict st !! name = Some (ELogger id) →
               levels st' !! id = levels st !! id.

(** The [level] attribute of the Logger registered under a name. *)
Definition level_of (st : state) (name : string) : option Z :=
  match loggerDict st !! name with
  | Some (ELogger id) => levels st !! id
  | _ => None
  end.

(** The third-party namespaces [setup_logging] quiets. *)
Definition third_party : list string :=
  ["httpx"; "httpcore"; "openai"; "qdrant_client"; "urllib3"].


(** Two classes of the same name, defined in different modules. *)
Definition ingest_service : pyclass :=
  {| class_module := "app.core.ingest"; class_name := "Service" |}.
Definition query_service : pyclass :=
  {| class_module := "app.core.query"; class_name := "Service" |}.

(** A store whose health check is interrupted from the keyboard. *)
Definition interrupted_store : health.VectorStoreService scenarios.docs_info :=
  {| health.init := Return tt;
     health.vs_health_check := Raise (PyBaseException "KeyboardInterrupt" "");
     health.get_collection_info := Return scenarios.docs |}.

End logger_invariants.
(** * Properties of the health endpoints *)

Section health_properties.
Import health scenarios.
Context {CollectionInfo : Type}.
Implicit Types w : World CollectionInfo.

(** The three runs of [readiness_check] that end inside the [try] block
    or in its first [except] clause. *)
Lemma readiness_check_healthy w info :
  init (vector_store w) = Return tt →
  vs_health_check (vector_store w) = Return true →
  get_collection_info (vector_store w) = Return info →
  readiness_check w =
    (Return {| status := "ready"; qdrant_connected := true;
               collection_info := Some info |},
     [Log DEBUG "Readiness check requested"; VectorStoreService_init;
      VectorStoreService_health_check;
      VectorStoreService_get_collection_info]).
Proof.
  intros Hi Hh Hg. unfold readiness_check, readiness_try.
  rewrite Hi, Hh, Hg. reflexivity.
Qed.

Lemma readiness_check_unhealthy w :
  init (vector_store w) = Return tt →
  vs_health_check (vector_store w) = Return false →
  readiness_check w =
    (Raise (HTTPException 503 "Vector store is not healthy"),
     [Log DEBUG "Readiness check requested"; VectorStoreService_init;
      VectorStoreService_health_check]).
Proof.
  intros Hi Hh. unfold readiness_check, readiness_try.
  rewrite Hi, Hh. reflexivity.
Qed.

(** Whatever the [try] block raises that is an HTTPException leaves
    [readiness_check] as it is, and nothing is logged for it. *)
Lemma readiness_check_reraises w c d t :
  readiness_try w = (Raise (HTTPException c d), t) →
  readiness_check w =
    (Raise (HTTPException c d), Log DEBUG "Readiness check requested" :: t).
Proof.
  intros Hbody. unfold readiness_check. rewrite Hbody. cbn.
  by rewrite app_nil_r.
Qed.

(** An ordinary exception of the [try] block is logged once and wrapped. *)
Lemma readiness_check_wraps w e t :
  unexpected_failure e = true →
  readiness_try w = (Raise e, t) →
  readiness_check w =
    (Raise (HTTPException 503 ("Service not ready: " +:+ str e)),
     Log DEBUG "Readiness check requested"
       :: t ++ [Log ERROR ("Readiness check failed: " +:+ str e)]).
Proof.
  intros He Hbody. unfold readiness_check. rewrite Hbody.
  destruct e; try discriminate He. reflexivity.
Qed.

Lemma log_lines_app levelno (t1 t2 : list event) :
  log_lines levelno (t1 ++ t2) = log_lines levelno t1 ++ log_lines levelno t2.
Proof. unfold log_lines. apply omap_app. Qed.

(** C1: when the probe reports healthy and the snapshot returns a value,
    the readiness operation returns a response that is sent with 200,
    whose status is "ready", whose connected flag is true and whose
    collection info is the value the probe returned. *)
Theorem readiness_ready_forwards_collection_info w info :
  init (vector_store w) = Return tt →
  vs_health_check (vector_store w) = Return true →
  get_collection_info (vector_store w) = Return info →
  ∃ r, fst (readiness_check w) = Return r
     ∧ status r = "ready"
     ∧ qdrant_connected r = true
     ∧ collection_info r = Some info
     ∧ fastapi_response (fst (readiness_check w)) =
         Some {| code := 200;
                 body := [("status", JStr "ready");
                          ("qdrant_connected", JBool true);
                          ("collection_info", JInfo info)] |}.
Proof.
  intros Hi Hh Hg. rewrite (readiness_check_healthy w info Hi Hh Hg).
  eexists. repeat split.
Qed.

(** C2, as amended: when the probe reports unhealthy, the readiness
    operation ends in the HTTPException 503 "Vector store is not healthy",
    which is sent as a body that holds the detail alone (no connected
    flag, no collection info), and the snapshot is never asked for. *)
Theorem readiness_unhealthy_is_503_detail_only w :
  init (vector_store w) = Return tt →
  vs_health_check (vector_store w) = Return false →
  fst (readiness_check w) = Raise (HTTPException 503 "Vector store is not healthy")
  ∧ fastapi_response (fst (readiness_check w)) =
      Some {| code := 503;
              body := [("detail", JStr "Vector store is not healthy")] |}
  ∧ VectorStoreService_get_collection_info ∉ snd (readiness_check w).
Proof.
  intros Hi Hh. rewrite (readiness_check_unhealthy w Hi Hh). cbn.
  repeat split. intros Hin.
  repeat (apply elem_of_cons in Hin as [Heq | Hin]; [discriminate Heq |]).
  by apply elem_of_nil in Hin.
Qed.

(** C3, as amended: when the health check or, after a healthy answer, the
    snapshot raises an instance of [Exception] that is not an
    HTTPException, the readiness operation ends in a 503 whose detail is
    "Service not ready: " followed by [str(e)], and its one ERROR line
    holds the same cause text. *)
Theorem readiness_unexpected_failure_is_wrapped_and_logged w e :
  unexpected_failure e = true →
  init (vector_store w) = Return tt →
  (vs_health_check (vector_store w) = Raise e
   ∨ (vs_health_check (vector_store w) = Return true
      ∧ get_collection_info (vector_store w) = Raise e)) →
  fst (readiness_check w) =
    Raise (HTTPException 503 ("Service not ready: " +:+ str e))
  ∧ fastapi_response (fst (readiness_check w)) =
      Some {| code := 503;
              body := [("detail", JStr ("Service not ready: " +:+ str e))] |}
  ∧ log_lines ERROR (snd (readiness_check w)) =
      ["Readiness check failed: " +:+ str e].
Proof.
  intros He Hi Hraise.
  assert (∃ t, readiness_try w = (Raise e, t) ∧ log_lines ERROR t = [])
    as (t & Hbody & Ht).
  { unfold readiness_try. rewrite Hi.
    destruct Hraise as [Hh | [Hh Hg]].
    - rewrite Hh. eexists. split; reflexivity.
    - rewrite Hh, Hg. eexists. split; reflexivity. }
  rewrite (readiness_check_wraps w e t He Hbody). cbn [fst snd].
  repeat split.
  change (Log DEBUG "Readiness check requested" :: t ++ ?l)
    with ([Log DEBUG "Readiness check requested"] ++ t ++ l).
  rewrite !log_lines_app, Ht. reflexivity.
Qed.

(** C4: the 503 raised for an unhealthy answer goes through the handlers
    of the readiness operation as it is: the exception that leaves the
    operation is the one the [try] block raised, with its status code and
    its detail, and not one of the "Service not ready: ..." form. *)
Theorem readiness_unhealthy_503_passes_through w :
  init (vector_store w) = Return tt →
  vs_health_check (vector_store w) = Return false →
  fst (readiness_try w) = Raise (HTTPException 503 "Vector store is not healthy")
  ∧ fst (readiness_check w) = fst (readiness_try w)
  ∧ ∀ cause, fst (readiness_check w) ≠
             Raise (HTTPException 503 ("Service not ready: " +:+ cause)).
Proof.
  intros Hi Hh.
  assert (readiness_try w =
          (Raise (HTTPException 503 "Vector store is not healthy"),
           [VectorStoreService_init; VectorStoreService_health_check]))
    as Hbody.
  { unfold readiness_try. rewrite Hi, Hh. reflexivity. }
  rewrite (readiness_check_reraises w _ _ _ Hbody), Hbody. cbn [fst].
  repeat split. intros cause Heq. discriminate Heq.
Qed.

(** C8, as amended: the liveness operation makes no call on the vector
    store, logs one INFO line, and returns the status "healthy", the
    version of the process and, as timestamp, the naive local time of the
    capture, which is off the UTC capture time by the offset of the local
    zone. *)
Theorem health_check_is_static_and_local_time w :
  ∃ r, fst (health_check w) = Return r
     ∧ probe_calls (snd (health_check w)) = []
     ∧ log_lines INFO (snd (health_check w)) = ["Health check requested"]
     ∧ h_status r = "healthy"
     ∧ h_version r = __version__ w
     ∧ tzinfo (h_timestamp r) = None
     ∧ (wall (h_timestamp r) - wall (datetime_utcnow w) = utcoffset w)%Z.
Proof.
  eexists. cbn. repeat split. cbn. lia.
Qed.

(** C9, as amended: when the constructor of the probe and its two
    methods raise only instances of [Exception], and no HTTPException
    with a status other than 503, the readiness operation either returns
    a READY response or ends in an HTTPException that carries 503. *)
Theorem readiness_returns_ready_or_503 w :
  raises_only leaves_as_503 (init (vector_store w)) = true →
  raises_only leaves_as_503 (vs_health_check (vector_store w)) = true →
  raises_only leaves_as_503 (get_collection_info (vector_store w)) = true →
  (∃ r, fst (readiness_check w) = Return r ∧ status r = "ready")
  ∨ (∃ d, fst (readiness_check w) = Raise (HTTPException 503 d)).
Proof.
  unfold readiness_check, readiness_try.
  destruct (init (vector_store w)) as [[]|e1];
    [destruct (vs_health_check (vector_store w)) as [[]|e2];
       [destruct (get_collection_info (vector_store w)) as [i|e3] | |] |];
    cbn; intros H1 H2 H3;
    repeat match goal with
           | e : exn |- _ => destruct e; cbn in *; try discriminate
           | H : (_ =? _)%Z = true |- _ => apply Z.eqb_eq in H; subst
           end;
    eauto.
Qed.

(** C10: when the probe reports unhealthy without raising, the readiness
    operation logs no ERROR line. *)
Theorem readiness_unhealthy_logs_no_error w :
  init (vector_store w) = Return tt →
  vs_health_check (vector_store w) = Return false →
  log_lines ERROR (snd (readiness_check w)) = [].
Proof.
  intros Hi Hh. rewrite (readiness_check_unhealthy w Hi Hh). reflexivity.
Qed.

End health_properties.

(** ** The end-to-end scenarios *)

Section health_scenarios.
Import health scenarios.

(** Scenario 1: a healthy store whose snapshot is [docs]. *)
Lemma scenario_ready :
  vs_health_check healthy_store = Return true
  ∧ get_collection_info healthy_store = Return docs
  ∧ ∃ r, fst (readiness_check (world healthy_store)) = Return r
       ∧ status r = "ready"
       ∧ qdrant_connected r = true
       ∧ collection_info r = Some docs
       ∧ fastapi_response (fst (readiness_check (world healthy_store))) =
           Some {| code := 200;
                   body := [("status", JStr "ready");
                            ("qdrant_connected", JBool true);
                            ("collection_info", JInfo docs)] |}.
Proof.
  split; [reflexivity | split; [reflexivity |]].
  apply (readiness_ready_forwards_collection_info (world healthy_store) docs);
    reflexivity.
Defined.

(** Scenario 2: an unhealthy store. The body sent for it holds the detail
    alone: it has no connected flag under either name. *)
Lemma scenario_unhealthy_body_has_no_connected_flag :
  vs_health_check unhealthy_store = Return false
  ∧ ∃ resp,
      fastapi_response (fst (readiness_check (world unhealthy_store))) = Some resp
      ∧ code resp = 503
      ∧ field "dependency_connected" (body resp) = None
      ∧ field "qdrant_connected" (body resp) = None
      ∧ field "qdrant_connected" (body resp) ≠ Some (JBool false).
Proof.
  split; [reflexivity |]. eexists. repeat split. discriminate.
Qed.

Lemma scenario_unhealthy :
  vs_health_check unhealthy_store = Return false
  ∧ fst (readiness_check (world unhealthy_store)) =
      Raise (HTTPException 503 "Vector store is not healthy")
  ∧ fastapi_response (fst (readiness_check (world unhealthy_store))) =
      Some {| code := 503;
              body := [("detail", JStr "Vector store is not healthy")] |}
  ∧ VectorStoreService_get_collection_info
      ∉ snd (readiness_check (world unhealthy_store)).
Proof.
  split; [reflexivity |].
  apply (readiness_unhealthy_is_503_detail_only (world unhealthy_store));
    reflexivity.
Defined.

(** Scenario 3: a healthy store whose snapshot raises. *)
Lemma scenario_connection_reset :
  unexpected_failure connection_reset = true
  ∧ fst (readiness_check (world reset_store)) =
      Raise (HTTPException 503
               "Service not ready: ConnectionReset: reset by peer")
  ∧ fastapi_response (fst (readiness_check (world reset_store))) =
      Some {| code := 503;
              body := [("detail",
                        JStr "Service not ready: ConnectionReset: reset by peer")] |}
  ∧ log_lines ERROR (snd (readiness_check (world reset_store))) =
      ["Readiness check failed: ConnectionReset: reset by peer"].
Proof.
  split; [reflexivity |].
  apply (readiness_unexpected_failure_is_wrapped_and_logged
           (world reset_store) connection_reset);
    [reflexivity | reflexivity | right; split; reflexivity].
Defined.

(** A snapshot that raises an HTTPException of its own is not wrapped:
    the 404 leaves the operation as it is and no ERROR line is logged. *)
Lemma scenario_snapshot_raises_http_exception :
  vs_health_check not_found_store = Return true
  ∧ get_collection_info not_found_store = Raise not_found
  ∧ fst (readiness_check (world not_found_store)) = Raise not_found
  ∧ fst (readiness_check (world not_found_store)) ≠
      Raise (HTTPException 503 ("Service not ready: " +:+ str not_found))
  ∧ log_lines ERROR (snd (readiness_check (world not_found_store))) = [].
Proof.
  repeat split. discriminate.
Qed.

Lemma scenario_unhealthy_passes_through :
  vs_health_check unhealthy_store = Return false
  ∧ fst (readiness_try (world unhealthy_store)) =
      Raise (HTTPException 503 "Vector store is not healthy")
  ∧ fst (readiness_check (world unhealthy_store)) =
      fst (readiness_try (world unhealthy_store))
  ∧ ∀ cause, fst (readiness_check (world unhealthy_store)) ≠
             Raise (HTTPException 503 ("Service not ready: " +:+ cause)).
Proof.
  split; [reflexivity |].
  apply (readiness_unhealthy_503_passes_through (world unhealthy_store));
    reflexivity.
Defined.

(** In a zone one hour east of Greenwich the timestamp of the liveness
    response is not the UTC capture time. *)
Lemma scenario_timestamp_is_not_utc :
  ∃ r, fst (health_check (world healthy_store)) = Return r
     ∧ h_timestamp r ≠ datetime_utcnow (world healthy_store)
     ∧ wall (h_timestamp r) = (wall (datetime_utcnow (world healthy_store)) + 3600)%Z.
Proof.
  eexists. repeat split. discriminate.
Qed.

(** The 404 of the snapshot leaves the readiness operation: the outcome
    is neither a response nor an HTTPException that carries 503. *)
Lemma scenario_404_escapes :
  ¬ ((∃ r, fst (readiness_check (world not_found_store)) = Return r)
     ∨ (∃ d, fst (readiness_check (world not_found_store)) =
             Raise (HTTPException 503 d))).
Proof.
  intros [[r Hr] | [d Hd]]; discriminate.
Qed.

(** A store whose constructor raises. *)
Lemma scenario_constructor_raises :
  raises_only leaves_as_503 (init unreachable_store) = true
  ∧ ((∃ r, fst (readiness_check (world unreachable_store)) = Return r
         ∧ status r = "ready")
     ∨ (∃ d, fst (readiness_check (world unreachable_store)) =
             Raise (HTTPException 503 d))).
Proof.
  split; [reflexivity |].
  apply (readiness_returns_ready_or_503 (world unreachable_store));
    reflexivity.
Defined.

Lemma scenario_unhealthy_logs_no_error :
  vs_health_check unhealthy_store = Return false
  ∧ log_lines ERROR (snd (readiness_check (world unhealthy_store))) = [].
Proof.
  split; [reflexivity |].
  apply (readiness_unhealthy_logs_no_error (world unhealthy_store));
    reflexivity.
Defined.

End health_scenarios.

(** * Properties of the logging configuration *)

Section logger_properties.
Import logger logger_vocabulary.
Local Open Scope nat_scope.

(** ** Rules for [post] *)

Lemma post_ret {A} (a : A) st (Q : A → state → Prop) E :
  Q a st → post (mret a) st Q E.
Proof. done. Qed.

Lemma post_bind {A B} (m : L A) (k : A → L B) st
    (Q : B → state → Prop) (E : state → Prop) :
  post m st (λ a st', post (k a) st' Q E) E → post (m ≫= k) st Q E.
Proof.
  unfold post, mbind, L_bind. destruct (m st) as [[a|e] st']; done.
Qed.

Lemma post_weaken {A} (m : L A) st (Q Q' : A → state → Prop) (E E' : state → Prop) :
  post m st Q E → (∀ a st', Q a st' → Q' a st') → (∀ st', E st' → E' st') →
  post m st Q' E'.
Proof.
  unfold post. destruct (m st) as [[a|e] st']; eauto.
Qed.

Lemma post_get st (Q : state → state → Prop) E : Q st st → post get st Q E.
Proof. done. Qed.

Lemma post_modify f st (Q : unit → state → Prop) E :
  Q tt (f st) → post (modify f) st Q E.
Proof. done. Qed.

Lemma post_returns {A} (m : L A) st (Q : A → state → Prop) :
  post m st Q (λ _, False) → ∃ a st', m st = (Return a, st') ∧ Q a st'.
Proof.
  unfold post. destruct (m st) as [[a|e] st']; [eauto | done].
Qed.

(** ** [logging.getLogger] *)

Lemma same_root_refl st : same_root st st.
Proof. done. Qed.

(** [logging.getLogger] returns, leaves the root logger as it is, and
    gives a created Logger for every name that is not the root's. *)
Lemma logging_getLogger_same_root name st :
  post (logging_getLogger name) st
    (λ h st', same_root st st'
              ∧ (¬ (name = "" ∨ name = "root") → ∃ id, h = LoggerObj id))
    (λ _, False).
Proof.
  unfold logging_getLogger. case_decide as Hname.
  - apply post_ret. split; [done | tauto].
  - unfold post, Manager_getLogger, mbind, L_bind, get. cbn.
    destruct (loggerDict st !! name) as [[id|]|]; cbn; split; eauto; done.
Qed.

(** Setting the level of a created Logger to WARNING leaves the root
    logger alone. *)
Lemma silence_same_root name st :
  ¬ (name = "" ∨ name = "root") →
  post (l ← logging_getLogger name ; setLevel l (PyInt WARNING)) st
    (λ _ st', same_root st st') (λ _, False).
Proof.
  intros Hname. apply post_bind.
  eapply post_weaken; [apply logging_getLogger_same_root | | done].
  intros h st' [Hroot Hh]. destruct (Hh Hname) as [id ->]. exact Hroot.
Qed.

Lemma post_seq_same_root {A B} (m : L A) (k : L B) st
    (Q : B → state → Prop) (E : state → Prop) :
  post m st (λ _ st', same_root st st') (λ _, False) →
  (∀ st', same_root st st' → post k st' Q E) →
  post (m ;; k) st Q E.
Proof.
  intros Hm Hk. apply post_bind.
  eapply post_weaken; [exact Hm | | done]. intros a st'. apply Hk.
Qed.

(** ** [setup_logging] *)

Ltac not_root_name :=
  let H := fresh "Hname" in intros [H | H]; discriminate H.

(** Only the value found for the level tells two calls apart. *)
Lemma setup_logging_by_level_value s1 s2 :
  getattr_logging (upper s1) (PyInt INFO) = getattr_logging (upper s2) (PyInt INFO) →
  setup_logging s1 = setup_logging s2.
Proof.
  intros Hlevel. unfold setup_logging. rewrite Hlevel. reflexivity.
Qed.

(** With an integer found for the level, [setup_logging] returns and the
    root logger has that level and the handlers that the loop left and
    the new stream handler. *)
Lemma setup_logging_int_level s n st :
  getattr_logging (upper s) (PyInt INFO) = PyInt n →
  post (setup_logging s) st
    (λ _ st',
       root_level st' = n
       ∧ root_handlers st' =
           addHandler (stream_handler (next_id st))
             (remove_existing_handlers (root_handlers st)))
    (λ _, False).
Proof.
  intros Hlevel. unfold setup_logging. rewrite Hlevel.
  apply post_bind. unfold logging_getLogger at 1.
  case_decide as Hname; [| by destruct Hname; left].
  apply post_ret. apply post_bind.
  change (setLevel RootLogger (PyInt n) st) with (Return tt, set_root_level n st).
  unfold post at 1.
  apply post_bind, post_modify, post_bind.
  unfold post at 1. cbn [StreamHandler new_object mbind L_bind mret L_ret].
  apply post_bind, post_modify.
  set (st1 := set_root_handlers _ _).
  assert (root_level st1 = n
          ∧ root_handlers st1 =
              addHandler (stream_handler (next_id st))
                (remove_existing_handlers (root_handlers st))) as [Hl1 Hh1]
    by done.
  clearbody st1.
  apply post_seq_same_root; [apply silence_same_root; not_root_name |].
  intros st2 [Hl2 Hh2].
  apply post_seq_same_root; [apply silence_same_root; not_root_name |].
  intros st3 [Hl3 Hh3].
  apply post_seq_same_root; [apply silence_same_root; not_root_name |].
  intros st4 [Hl4 Hh4].
  apply post_seq_same_root; [apply silence_same_root; not_root_name |].
  intros st5 [Hl5 Hh5].
  eapply post_weaken; [apply silence_same_root; not_root_name | | done].
  intros [] st6 [Hl6 Hh6]. cbn beta. split; congruence.
Qed.

(** C5, as amended: for every ASCII level string whose upper-cased form
    is not the name of an attribute of the [logging] module,
    [setup_logging] does what [setup_logging("INFO")] does: it returns
    without raising and leaves the level of the root logger at INFO. *)
Theorem setup_logging_unknown_level_is_INFO (log_level : string) (st : state) :
  isascii log_level = true →
  assoc (upper log_level) logging_namespace = None →
  setup_logging log_level st = setup_logging "INFO" st
  ∧ fst (setup_logging log_level st) = Return tt
  ∧ root_level (snd (setup_logging log_level st)) = INFO.
Proof.
  intros _ Hunknown.
  assert (getattr_logging (upper log_level) (PyInt INFO) = PyInt INFO) as Hlevel.
  { unfold getattr_logging. by rewrite Hunknown. }
  split.
  - by rewrite (setup_logging_by_level_value log_level "INFO").
  - destruct (post_returns _ _ _ (setup_logging_int_level log_level INFO st Hlevel))
      as ([] & st' & Hrun & Hroot & _).
    rewrite Hrun. done.
Qed.

(** ** The loop that removes the handlers *)

Lemma removeHandler_length h hs :
  length (removeHandler h hs) ≤ length hs.
Proof.
  unfold removeHandler. destruct (handler_in h hs); [| done].
  induction hs as [| h' rest IH]; cbn; [done |].
  destruct (handler_id h' =? handler_id h); cbn; lia.
Qed.

(** The loop ends because the index leaves the list, not because the
    fuel runs out: from the length of the list on, more fuel changes
    nothing. *)
Lemma remove_loop_fuel fuel fuel' i hs :
  length hs - i ≤ fuel → fuel ≤ fuel' →
  remove_loop fuel i hs = remove_loop fuel' i hs.
Proof.
  revert fuel' i hs. induction fuel as [| fuel IH]; intros fuel' i hs Hlen Hle.
  - destruct fuel' as [| fuel']; cbn; [done |].
    rewrite (lookup_ge_None_2 hs i); [done | lia].
  - destruct fuel' as [| fuel']; [lia |]. cbn.
    destruct (hs !! i) as [h |] eqn:Hi; [| done].
    apply IH; [| lia].
    pose proof (removeHandler_length h hs). lia.
Qed.

Lemma handler_in_true h hs :
  h ∈ hs → handler_in h hs = true.
Proof.
  intros Hin. unfold handler_in. apply existsb_exists.
  exists h. split; [by apply list_elem_of_In | apply Nat.eqb_refl].
Qed.

Lemma handler_in_false h hs :
  (∀ h', h' ∈ hs → handler_id h' ≠ handler_id h) → handler_in h hs = false.
Proof.
  intros Hfresh. unfold handler_in.
  destruct (existsb _ hs) eqn:Hex; [| done].
  apply existsb_exists in Hex as (h' & Hin & Heq).
  apply list_elem_of_In in Hin. apply Nat.eqb_eq in Heq.
  by destruct (Hfresh h' Hin).
Qed.

(** Among distinct handlers, removing the one read at an index takes out
    that position. *)
Lemma removeHandler_at i h hs :
  NoDup (handler_id <$> hs) → hs !! i = Some h →
  removeHandler h hs = take i hs ++ drop (S i) hs.
Proof.
  intros Hnodup Hi. unfold removeHandler.
  rewrite handler_in_true by (by eapply list_elem_of_lookup_2).
  revert i Hi. induction hs as [| h' rest IH]; intros i Hi; [done |].
  apply NoDup_cons in Hnodup as [Hnotin Hnodup].
  destruct i as [| i]; cbn in *.
  - injection Hi as ->. by rewrite Nat.eqb_refl.
  - destruct (handler_id h' =? handler_id h) eqn:Heq.
    + apply Nat.eqb_eq in Heq. destruct Hnotin. rewrite Heq.
      apply list_elem_of_fmap. exists h. split; [done |].
      by eapply list_elem_of_lookup_2.
    + by rewrite (IH Hnodup i Hi).
Qed.

Lemma NoDup_handler_ids_remove i hs :
  NoDup (handler_id <$> hs) →
  NoDup (handler_id <$> (take i hs ++ drop (S i) hs)).
Proof.
  intros Hnodup. eapply sublist_NoDup; [exact Hnodup |].
  apply fmap_sublist. rewrite <- delete_take_drop. apply sublist_delete.
Qed.

(** Among distinct handlers the loop removes the handler at the index
    and skips the one after it, to the end of the list. *)
Lemma remove_loop_every_second fuel i hs :
  NoDup (handler_id <$> hs) → length hs - i ≤ fuel →
  remove_loop fuel i hs = take i hs ++ every_second (drop i hs).
Proof.
  revert i hs. induction fuel as [| fuel IH]; intros i hs Hnodup Hlen.
  - cbn. rewrite drop_ge, take_ge by lia. by rewrite app_nil_r.
  - cbn. destruct (hs !! i) as [h |] eqn:Hi.
    + rewrite (removeHandler_at i h hs Hnodup Hi).
      pose proof (lookup_lt_Some _ _ _ Hi) as Hlt.
      rewrite IH.
      * rewrite (drop_S hs h i Hi).
        rewrite take_app_ge, drop_app_ge by (rewrite length_take; lia).
        rewrite length_take, Nat.min_l by lia.
        replace (S i - i) with 1 by lia.
        destruct (drop (S i) hs) as [| h2 rest]; cbn.
        -- by rewrite !app_nil_r.
        -- rewrite take_0, drop_0. by rewrite <- app_assoc.
      * by apply NoDup_handler_ids_remove.
      * rewrite length_app, length_take, length_drop. lia.
    + apply lookup_ge_None_1 in Hi.
      rewrite drop_ge, take_ge by lia. by rewrite app_nil_r.
Qed.

Lemma remove_existing_handlers_every_second hs :
  NoDup (handler_id <$> hs) →
  remove_existing_handlers hs = every_second hs.
Proof.
  intros Hnodup. unfold remove_existing_handlers.
  rewrite remove_loop_every_second by (done || lia).
  by rewrite take_0, drop_0.
Qed.

Lemma every_second_elem_aux hs h :
  (h ∈ every_second hs → h ∈ hs)
  ∧ (∀ h0, h ∈ every_second (h0 :: hs) → h ∈ hs).
Proof.
  induction hs as [| h1 rest [IH1 IH2]].
  - split; [| intros h0]; cbn; by intros ?%elem_of_nil.
  - split.
    + intros Hin. right. by apply (IH2 h1).
    + intros h0. cbn [every_second].
      intros [-> | Hin]%elem_of_cons; [left | right; apply IH1, Hin].
Qed.

Lemma every_second_elem hs h : h ∈ every_second hs → h ∈ hs.
Proof. apply every_second_elem_aux. Qed.

Lemma every_second_length_aux hs :
  length (every_second hs) = Nat.div2 (length hs)
  ∧ ∀ h0, length (every_second (h0 :: hs)) = Nat.div2 (S (length hs)).
Proof.
  induction hs as [| h1 rest [IH1 IH2]]; [done |].
  split; [apply IH2 |].
  intros h0. cbn [every_second length Nat.div2]. by rewrite IH1.
Qed.

Lemma every_second_length hs :
  length (every_second hs) = Nat.div2 (length hs).
Proof. apply every_second_length_aux. Qed.

(** With distinct handlers attached, all older than the next identity,
    [setup_logging] leaves every second of them attached, and the new
    stream handler after them. *)
Lemma setup_logging_handlers s n st :
  getattr_logging (upper s) (PyInt INFO) = PyInt n →
  handlers_wf st →
  fst (setup_logging s st) = Return tt
  ∧ root_handlers (snd (setup_logging s st)) =
      every_second (root_handlers st) ++ [stream_handler (next_id st)].
Proof.
  intros Hlevel [Hnodup Hold].
  destruct (post_returns _ _ _ (setup_logging_int_level s n st Hlevel))
    as ([] & st' & Hrun & _ & Hhandlers).
  rewrite Hrun. cbn [fst snd]. split; [done |].
  rewrite Hhandlers, (remove_existing_handlers_every_second _ Hnodup).
  unfold addHandler. rewrite handler_in_false; [done |].
  intros h' Hin%every_second_elem%Hold. cbn. lia.
Qed.

(** So the count goes from [k] to [k / 2 + 1]: it is 1 after a call made
    with at most one handler attached, and 2 or more after any other. *)
Lemma setup_logging_handler_count s n st :
  getattr_logging (upper s) (PyInt INFO) = PyInt n →
  handlers_wf st →
  length (root_handlers (snd (setup_logging s st))) =
    Nat.div2 (length (root_handlers st)) + 1.
Proof.
  intros Hlevel Hwf.
  destruct (setup_logging_handlers s n st Hlevel Hwf) as [_ ->].
  by rewrite length_app, every_second_length.
Qed.

(** C6: called on a root logger that has two handlers attached,
    [setup_logging] detaches the first and keeps the second, so that two
    handlers are attached when it returns, and as many after each further
    call. *)
Theorem setup_logging_keeps_second_of_two_handlers :
  root_handlers two_handlers_state = [file_handler; console_handler]
  ∧ fst (setup_logging "INFO" two_handlers_state) = Return tt
  ∧ root_handlers (snd (setup_logging "INFO" two_handlers_state)) =
      [console_handler; stream_handler 2]
  ∧ length (root_handlers
              (exec_all [Call_setup_logging "INFO"; Call_setup_logging "INFO"]
                 two_handlers_state)) = 2
  ∧ length (root_handlers
              (exec_all [Call_setup_logging "INFO"; Call_setup_logging "INFO";
                         Call_setup_logging "INFO"]
                 two_handlers_state)) = 2.
Proof.
  repeat split; vm_compute; reflexivity.
Qed.

(** On a fresh process the first call attaches the one handler. *)
Lemma setup_logging_fresh_process :
  length (root_handlers (snd (setup_logging "INFO" initial_state))) = 1
  ∧ length (root_handlers
              (exec_all [Call_setup_logging "INFO"; Call_setup_logging "DEBUG";
                         Call_setup_log "INFO"]
                 initial_state)) = 1.
Proof.
  split; vm_compute; reflexivity.
Qed.

(** The level names are matched in any case: "debug" is not one of the
    listed names, and [setup_logging("debug")] sets DEBUG, not INFO. *)
Lemma setup_logging_debug_in_lower_case :
  ("debug" ∉ recognized_levels)
  ∧ root_level (snd (setup_logging "debug" initial_state)) = DEBUG
  ∧ root_level (snd (setup_logging "INFO" initial_state)) = INFO
  ∧ setup_logging "debug" initial_state ≠ setup_logging "INFO" initial_state.
Proof.
  split; [| split; [| split]].
  - unfold recognized_levels. intros Hin.
    repeat (apply elem_of_cons in Hin as [Heq | Hin]; [discriminate Heq |]).
    by apply elem_of_nil in Hin.
  - vm_compute. reflexivity.
  - vm_compute. reflexivity.
  - intros Heq. apply (f_equal (λ r, root_level (snd r))) in Heq.
    vm_compute in Heq. discriminate Heq.
Qed.

Lemma setup_logging_verbose :
  isascii "verbose" = true
  ∧ assoc (upper "verbose") logging_namespace = None
  ∧ setup_logging "verbose" initial_state = setup_logging "INFO" initial_state
  ∧ fst (setup_logging "verbose" initial_state) = Return tt
  ∧ root_level (snd (setup_logging "verbose" initial_state)) = INFO.
Proof.
  split; [reflexivity | split; [reflexivity |]].
  apply (setup_logging_unknown_level_is_INFO "verbose" initial_state);
    reflexivity.
Defined.

(** ** The registry of loggers only grows *)

Lemma grows_same st st' :
  loggerDict st' = loggerDict st → cache st' = cache st → grows st st'.
Proof.
  intros Hdict Hcache. split; [| done].
  intros name id. by rewrite Hdict.
Qed.

Lemma grows_refl st : grows st st.
Proof. by apply grows_same. Qed.

Lemma grows_trans st1 st2 st3 : grows st1 st2 → grows st2 st3 → grows st1 st3.
Proof.
  intros [Hd12 Hc12] [Hd23 Hc23]. split; [| congruence].
  intros name id Hname. by apply Hd23, Hd12.
Qed.

Lemma steady_ret {A} (a : A) : steady (mret a).
Proof. intros st. apply post_ret, grows_refl. Qed.

Lemma steady_bind {A B} (m : L A) (k : A → L B) :
  steady m → (∀ a, steady (k a)) → steady (m ≫= k).
Proof.
  intros Hm Hk st. apply post_bind.
  eapply post_weaken; [apply Hm | | done].
  intros a st' Hgrows. cbn beta in *.
  eapply post_weaken; [apply Hk | |]; cbn beta; eauto using grows_trans.
Qed.

Lemma steady_modify f : (∀ st, grows st (f st)) → steady (modify f).
Proof. intros Hf st. apply post_modify, Hf. Qed.

Lemma steady_lift {A} (o : outcome A) : steady (lift o).
Proof. intros st. unfold post, lift. destruct o; apply grows_refl. Qed.

Lemma steady_new_object : steady new_object.
Proof. intros st. unfold post. cbn. by apply grows_same. Qed.

Lemma steady_setLevel ref level : steady (setLevel ref level).
Proof.
  apply steady_bind; [apply steady_lift |].
  intros n. apply steady_modify. intros st. by destruct ref; apply grows_same.
Qed.

Lemma steady_StreamHandler : steady StreamHandler.
Proof.
  apply steady_bind; [apply steady_new_object | intros id; apply steady_ret].
Qed.

(** [_fixupParents] writes PlaceHolders where there is no entry: it
    never touches a Logger of the registry. *)
Lemma _fixupParents_loop_keeps name positions d key id :
  d !! key = Some (ELogger id) →
  _fixupParents_loop name positions d !! key = Some (ELogger id).
Proof.
  revert d. induction positions as [| i rest IH]; intros d Hkey; [done |].
  cbn [_fixupParents_loop]. destruct (0 <? i); [| done].
  destruct (d !! String.substring 0 i name) as [[id' |] |] eqn:Hsub;
    [done | by apply IH |].
  apply IH. rewrite lookup_insert_ne; [done | congruence].
Qed.

Lemma register_keeps name d id key id0 :
  (∀ id', d !! name ≠ Some (ELogger id')) →
  d !! key = Some (ELogger id0) →
  _fixupParents name (<[name := ELogger id]> d) !! key = Some (ELogger id0).
Proof.
  intros Hfree Hkey. apply _fixupParents_loop_keeps.
  rewrite lookup_insert_ne; [done |]. intros <-. by destruct (Hfree id0).
Qed.

Lemma register_lookup name d id :
  _fixupParents name (<[name := ELogger id]> d) !! name = Some (ELogger id).
Proof. apply _fixupParents_loop_keeps, lookup_insert_eq. Qed.

(** [Manager.getLogger] returns the Logger registered under the name,
    which it registers when there is none, and keeps all the others. *)
Lemma Manager_getLogger_registered name st :
  post (Manager_getLogger name) st
    (λ h st', grows st st'
              ∧ ∃ id, h = LoggerObj id ∧ loggerDict st' !! name = Some (ELogger id))
    (λ _, False).
Proof.
  unfold post, Manager_getLogger, mbind, L_bind, get. cbn.
  destruct (loggerDict st !! name) as [[id |] |] eqn:Hentry; cbn.
  - split; [apply grows_refl | eauto].
  - split; [split; [| done] | eauto using register_lookup].
    intros key id0 Hkey. cbn. apply register_keeps; [congruence | done].
  - split; [split; [| done] | eauto using register_lookup].
    intros key id0 Hkey. cbn. apply register_keeps; [congruence | done].
Qed.

Lemma dict_grows_trans st1 st2 st3 :
  dict_grows st1 st2 → dict_grows st2 st3 → dict_grows st1 st3.
Proof. intros H12 H23 name id Hname. by apply H23, H12. Qed.

Lemma resolves_grows st st' name h :
  dict_grows st st' → resolves st name h → resolves st' name h.
Proof.
  intros Hdict. unfold resolves. case_decide; [done |].
  intros (id & -> & Hname). eauto.
Qed.

Lemma resolves_functional st name h1 h2 :
  resolves st name h1 → resolves st name h2 → h1 = h2.
Proof.
  unfold resolves. case_decide; [congruence |].
  intros (id1 & -> & H1) (id2 & -> & H2). congruence.
Qed.

(** [logging.getLogger] returns the logger of the name. *)
Lemma logging_getLogger_resolves name st :
  post (logging_getLogger name) st
    (λ h st', grows st st' ∧ resolves st' name h) (λ _, False).
Proof.
  unfold logging_getLogger, resolves. case_decide as Hname.
  - apply post_ret. split; [apply grows_refl | done].
  - apply Manager_getLogger_registered.
Qed.

Lemma steady_logging_getLogger name : steady (logging_getLogger name).
Proof.
  intros st.
  eapply post_weaken; [apply logging_getLogger_resolves | | done].
  by intros h st' [Hgrows _].
Qed.

(** The functions of [logger.py] are built from steady steps. *)
Ltac steady_step :=
  first [ simple apply steady_logging_getLogger
        | simple apply steady_setLevel
        | simple apply steady_StreamHandler
        | simple apply steady_ret
        | simple apply steady_modify; intros ?; by apply grows_same
        | simple apply steady_bind; [| intros ?] ].

Lemma steady_setup_logging log_level : steady (setup_logging log_level).
Proof. unfold setup_logging. repeat steady_step. Qed.

(** What a steady function leaves is a grown state. *)
Lemma steady_snd {A} (m : L A) st : steady m → grows st (snd (m st)).
Proof.
  intros Hm. specialize (Hm st). unfold post in Hm.
  by destruct (m st) as [[a | e] st'].
Qed.

(** ** The cache of [get_logger] *)

Lemma assoc_elem {V} key (l : list (string * V)) v :
  assoc key l = Some v → (key, v) ∈ l.
Proof.
  induction l as [| [k v'] rest IH]; cbn; [done |].
  case_decide as Hk.
  - intros [= ->]. subst k. left.
  - intros Hrest. right. by apply IH.
Qed.

Lemma cache_consistent_grows st st' :
  grows st st' → cache_consistent st → cache_consistent st'.
Proof.
  intros Hgrows Hcache name h Hin. destruct Hgrows as [Hdict Hsame].
  rewrite Hsame in Hin. eapply resolves_grows; [done | by apply Hcache].
Qed.

(** [get_logger] returns the logger of the name, from the cache or from
    the registry, and keeps the cache consistent. *)
Lemma get_logger_resolves name st :
  cache_consistent st →
  post (get_logger name) st
    (λ h st', cache_consistent st' ∧ dict_grows st st' ∧ resolves st' name h)
    (λ _, False).
Proof.
  intros Hcache. unfold get_logger, lru_cache.
  apply post_bind, post_get.
  destruct (assoc name (cache st)) as [h |] eqn:Hhit.
  - apply assoc_elem in Hhit.
    apply post_bind, post_modify, post_ret.
    split; [| split; [by intros ? | by apply Hcache]].
    intros name' h' Hin. cbn in Hin.
    change (resolves st name' h').
    apply elem_of_cons in Hin as [[= -> ->] | Hin]; [by apply Hcache |].
    apply Hcache. unfold cache_remove in Hin.
    by apply list_elem_of_In, filter_In in Hin as [Hin%list_elem_of_In _].
  - apply post_bind.
    eapply post_weaken; [apply logging_getLogger_resolves | | done].
    intros h st1 [Hgrows Hname]. cbn beta.
    apply post_bind, post_modify, post_ret.
    split; [| split; [apply Hgrows | exact Hname]].
    intros name' h' Hin. unfold set_cache in Hin. cbn [cache] in Hin.
    change (resolves st1 name' h').
    apply subseteq_take in Hin.
    apply elem_of_cons in Hin as [[= -> ->] | Hin]; [done |].
    by eapply cache_consistent_grows.
Qed.

(** Every call keeps the cache consistent and the registry growing. *)
Lemma exec_consistent st c :
  cache_consistent st →
  cache_consistent (exec st c) ∧ dict_grows st (exec st c).
Proof.
  intros Hcache.
  assert (∀ A (m : L A), steady m →
            cache_consistent (snd (m st)) ∧ dict_grows st (snd (m st)))
    as Hsteady.
  { intros A m Hm%(steady_snd m st).
    split; [by eapply cache_consistent_grows | apply Hm]. }
  destruct c as [lvl | lvl | name | name]; cbn [exec].
  - apply Hsteady, steady_setup_logging.
  - apply Hsteady, steady_setup_logging.
  - destruct (post_returns _ _ _ (get_logger_resolves name st Hcache))
      as (h & st' & Hrun & Hcache' & Hgrows & _).
    by rewrite Hrun.
  - apply Hsteady, steady_logging_getLogger.
Qed.

Lemma exec_all_consistent cs st :
  cache_consistent st →
  cache_consistent (exec_all cs st) ∧ dict_grows st (exec_all cs st).
Proof.
  revert st. induction cs as [| c cs IH]; intros st Hcache.
  - split; [done | by intros ? ? ?].
  - destruct (exec_consistent st c Hcache) as [Hcache1 Hgrows1].
    destruct (IH (exec st c) Hcache1) as [Hcache2 Hgrows2].
    split; [done | by eapply dict_grows_trans].
Qed.

Lemma initial_state_consistent : cache_consistent initial_state.
Proof. intros name h Hin. by apply elem_of_nil in Hin. Qed.

(** C7: at any point of the life of the process, [get_logger(name)]
    returns a handle, and a second call with the same name, made after
    any calls of the functions of [logger.py] and of [logging.getLogger],
    however many names they ask for, returns the same logger object. *)
Theorem get_logger_returns_same_handle (earlier between : list call)
    (name : string) :
  ∃ h, fst (get_logger name (exec_all earlier initial_state)) = Return h
     ∧ fst (get_logger name
              (exec_all between
                 (snd (get_logger name (exec_all earlier initial_state))))) =
         Return h.
Proof.
  destruct (exec_all_consistent earlier initial_state initial_state_consistent)
    as [Hcache1 _].
  destruct (post_returns _ _ _ (get_logger_resolves name _ Hcache1))
    as (h1 & st2 & Hrun1 & Hcache2 & _ & Hname2).
  rewrite Hrun1. cbn [fst snd].
  destruct (exec_all_consistent between st2 Hcache2) as [Hcache3 Hgrows3].
  destruct (post_returns _ _ _ (get_logger_resolves name _ Hcache3))
    as (h2 & st4 & Hrun2 & _ & Hgrows4 & Hname4).
  rewrite Hrun2. cbn [fst].
  exists h1. split; [done |]. f_equal.
  apply (resolves_functional st4 name); [done |].
  eapply resolves_grows; [| exact Hname2].
  by eapply dict_grows_trans.
Qed.

(** After more names than the cache holds, the entry of "app" has been
    dropped from the cache, and the next call gets the same logger from
    the registry. *)
Lemma get_logger_after_eviction :
  fst (get_logger "app" initial_state) = Return (LoggerObj 0)
  ∧ assoc "app"
      (cache (exec_all (Call_get_logger <$> module_names)
                (snd (get_logger "app" initial_state)))) = None
  ∧ length
      (cache (exec_all (Call_get_logger <$> module_names)
                (snd (get_logger "app" initial_state)))) = maxsize
  ∧ fst (get_logger "app"
           (exec_all (Call_get_logger <$> module_names)
              (snd (get_logger "app" initial_state)))) =
      Return (LoggerObj 0).
Proof.
  repeat split; vm_compute; reflexivity.
Qed.

(** A name that was first met as the dotted ancestor of another gets its
    Logger on the first call and keeps it. *)
Lemma get_logger_of_placeholder :
  loggerDict (snd (get_logger "app.api.routes.health" initial_state)) !! "app.api"
    = Some EPlaceHolder
  ∧ fst (get_logger "app.api"
           (snd (get_logger "app.api.routes.health" initial_state))) =
      Return (LoggerObj 1)
  ∧ fst (get_logger "app.api"
           (exec_all [Call_get_logger "app.api"; Call_setup_logging "INFO"]
              (snd (get_logger "app.api.routes.health" initial_state)))) =
      Return (LoggerObj 1).
Proof.
  repeat split; vm_compute; reflexivity.
Qed.

End logger_properties.

(** * Further properties of the readiness operation *)

Section readiness_further.
Import health scenarios.
Context {CollectionInfo : Type}.
Implicit Types w : World CollectionInfo.

(** Case analysis on what the constructor and the two methods answer. *)
Ltac probe_cases w :=
  unfold readiness_check, readiness_try;
  destruct (init (vector_store w)) as [[] | [c1 d1 | cls1 t1 | cls1 t1]];
    [destruct (vs_health_check (vector_store w))
       as [[] | [c2 d2 | cls2 t2 | cls2 t2]];
       [destruct (get_collection_info (vector_store w))
          as [info | [c3 d3 | cls3 t3 | cls3 t3]] | ..] | ..];
  cbn.

(** A READY response is returned only when the constructor returned,
    the health check answered true and the snapshot was returned; the
    response then holds that snapshot. *)
Theorem readiness_ready_only_when_healthy w r :
  fst (readiness_check w) = Return r →
  ∃ info,
    init (vector_store w) = Return tt
    ∧ vs_health_check (vector_store w) = Return true
    ∧ get_collection_info (vector_store w) = Return info
    ∧ r = {| status := "ready"; qdrant_connected := true;
             collection_info := Some info |}.
Proof.
  probe_cases w; intros Hr; try discriminate Hr.
  injection Hr as <-. by exists info.
Qed.

(** The vector store is constructed once in every request; the health
    check is called exactly when the constructor returned, and the
    snapshot exactly when the health check then answered true; the calls
    come in this order and none is repeated. *)
Theorem readiness_probe_call_order w :
  (VectorStoreService_health_check ∈ snd (readiness_check w)
     ↔ init (vector_store w) = Return tt)
  ∧ (VectorStoreService_get_collection_info ∈ snd (readiness_check w)
     ↔ init (vector_store w) = Return tt
       ∧ vs_health_check (vector_store w) = Return true)
  ∧ probe_calls (snd (readiness_check w))
      `prefix_of` [VectorStoreService_init; VectorStoreService_health_check;
                   VectorStoreService_get_collection_info]
  ∧ head (probe_calls (snd (readiness_check w))) = Some VectorStoreService_init.
Proof.
  probe_cases w;
    (split; [| split; [| split; [| reflexivity]]]);
    rewrite ?elem_of_cons, ?elem_of_nil;
    first [ by eexists | intuition (discriminate || reflexivity) ].
Qed.

(** When the constructor of the vector store raises an ordinary
    exception, the failure is wrapped like one of the methods: a 503
    "Service not ready: <cause>", one ERROR line, and no method of the
    store is called. *)
Theorem readiness_constructor_failure_is_wrapped w e :
  unexpected_failure e = true →
  init (vector_store w) = Raise e →
  fst (readiness_check w) =
    Raise (HTTPException 503 ("Service not ready: " +:+ str e))
  ∧ log_lines ERROR (snd (readiness_check w)) =
      ["Readiness check failed: " +:+ str e]
  ∧ probe_calls (snd (readiness_check w)) = [VectorStoreService_init].
Proof.
  intros He Hinit. unfold readiness_check, readiness_try. rewrite Hinit.
  destruct e; try discriminate He. by cbn.
Qed.

(** An HTTPException, whatever its status, and an exception outside
    [Exception], raised by the constructor or by either method, leave the
    readiness operation as they are, and no ERROR line is logged. *)
Theorem readiness_reraises_unchanged w e :
  unexpected_failure e = false →
  (init (vector_store w) = Raise e
   ∨ (init (vector_store w) = Return tt
      ∧ vs_health_check (vector_store w) = Raise e)
   ∨ (init (vector_store w) = Return tt
      ∧ vs_health_check (vector_store w) = Return true
      ∧ get_collection_info (vector_store w) = Raise e)) →
  fst (readiness_check w) = Raise e
  ∧ log_lines ERROR (snd (readiness_check w)) = [].
Proof.
  intros He Hraise. unfold readiness_check, readiness_try.
  destruct Hraise as [Hi | [[Hi Hh] | (Hi & Hh & Hg)]];
    rewrite ?Hi, ?Hh, ?Hg; destruct e; try discriminate He; by cbn.
Qed.

(** Every request logs the DEBUG line once and at most one ERROR line;
    an ERROR line is logged only together with the 503 that wraps the
    ordinary exception the line reports. *)
Theorem readiness_error_line_only_when_wrapped w :
  log_lines DEBUG (snd (readiness_check w)) = ["Readiness check requested"]
  ∧ (log_lines ERROR (snd (readiness_check w)) = []
     ∨ (∃ e, unexpected_failure e = true
           ∧ log_lines ERROR (snd (readiness_check w)) =
               ["Readiness check failed: " +:+ str e]
           ∧ fst (readiness_check w) =
               Raise (HTTPException 503 ("Service not ready: " +:+ str e)))).
Proof.
  probe_cases w; (split; [reflexivity |]);
    first [ left; reflexivity
          | right;
            match goal with
            | cls : string, t : string |- _ =>
                exists (PyException cls t); by repeat split
            end ].
Qed.

End readiness_further.

Section readiness_further_scenarios.
Import health scenarios logger_invariants.

Lemma scenario_ready_only_when_healthy :
  ∃ info,
    init healthy_store = Return tt
    ∧ vs_health_check healthy_store = Return true
    ∧ get_collection_info healthy_store = Return info
    ∧ {| status := "ready"; qdrant_connected := true;
         collection_info := Some docs |} =
      {| status := "ready"; qdrant_connected := true;
         collection_info := Some info |}.
Proof.
  apply (readiness_ready_only_when_healthy (world healthy_store)).
  reflexivity.
Defined.

Lemma scenario_constructor_failure :
  init unreachable_store = Raise connection_reset
  ∧ fst (readiness_check (world unreachable_store)) =
      Raise (HTTPException 503
               "Service not ready: ConnectionReset: reset by peer")
  ∧ log_lines ERROR (snd (readiness_check (world unreachable_store))) =
      ["Readiness check failed: ConnectionReset: reset by peer"]
  ∧ probe_calls (snd (readiness_check (world unreachable_store))) =
      [VectorStoreService_init].
Proof.
  split; [reflexivity |].
  apply (readiness_constructor_failure_is_wrapped
           (world unreachable_store) connection_reset); reflexivity.
Defined.

Lemma scenario_keyboard_interrupt :
  vs_health_check interrupted_store =
    Raise (PyBaseException "KeyboardInterrupt" "")
  ∧ fst (readiness_check (world interrupted_store)) =
      Raise (PyBaseException "KeyboardInterrupt" "")
  ∧ log_lines ERROR (snd (readiness_check (world interrupted_store))) = [].
Proof.
  split; [reflexivity |].
  apply (readiness_reraises_unchanged (world interrupted_store));
    [reflexivity | right; left; split; reflexivity].
Defined.

End readiness_further_scenarios.

(** * Further properties of the logging configuration *)

Section logger_further.
Import logger logger_vocabulary logger_invariants.
Local Open Scope nat_scope.

(** ** The level that [setup_logging] finds *)

(** What [getattr(logging, name, logging.INFO)] can be: the number of a
    level name, the default, or one of the two attributes that are not
    levels. *)
Lemma getattr_logging_cases name :
  (∃ n, getattr_logging name (PyInt INFO) = PyInt n)
  ∨ (name = "BASIC_FORMAT"
     ∧ getattr_logging name (PyInt INFO) =
         PyStr "%(levelname)s:%(name)s:%(message)s")
  ∨ (name = "_STYLES" ∧ getattr_logging name (PyInt INFO) = PyDict).
Proof.
  unfold getattr_logging, logging_namespace. cbn [assoc].
  repeat case_decide; subst; eauto.
Qed.

Lemma getattr_logging_level_name name n :
  assoc name _nameToLevel = Some n →
  getattr_logging name (PyInt INFO) = PyInt n.
Proof.
  unfold getattr_logging, logging_namespace, _nameToLevel. cbn [assoc].
  repeat case_decide; subst; try discriminate; congruence.
Qed.

(** When the value found for the level is no level, [setup_logging]
    raises at [setLevel], before it has changed anything. *)
Lemma setup_logging_not_a_level s v e st :
  getattr_logging (upper s) (PyInt INFO) = v →
  _checkLevel v = Raise e →
  setup_logging s st = (Raise e, st).
Proof.
  intros Hv He. unfold setup_logging. rewrite Hv.
  unfold mbind, L_bind, logging_getLogger.
  case_decide as Hname; [| by destruct Hname; left].
  cbn. unfold setLevel, mbind, L_bind, lift. by rewrite He.
Qed.

(** [setup_logging] returns exactly when an integer is found. *)
Lemma setup_logging_returns_inv s st :
  fst (setup_logging s st) = Return tt →
  ∃ n, getattr_logging (upper s) (PyInt INFO) = PyInt n.
Proof.
  intros Hret.
  destruct (getattr_logging_cases (upper s)) as [? | [[_ Hv] | [_ Hv]]];
    [done | |];
    erewrite setup_logging_not_a_level in Hret by (exact Hv || reflexivity);
    discriminate Hret.
Qed.

(** The level names are matched in any letter case: a string whose
    upper-cased form is a level name of [logging] (DEBUG, INFO, WARNING,
    ERROR, CRITICAL, and WARN, FATAL, NOTSET) sets the root logger to the
    number of that level. *)
Theorem setup_logging_level_name_in_any_case s n st :
  assoc (upper s) _nameToLevel = Some n →
  fst (setup_logging s st) = Return tt
  ∧ root_level (snd (setup_logging s st)) = n.
Proof.
  intros Hname%getattr_logging_level_name.
  destruct (post_returns _ _ _ (setup_logging_int_level s n st Hname))
    as ([] & st' & Hrun & Hroot & _).
  by rewrite Hrun.
Qed.


(** ** Registrations *)

Lemma post_then {A B} (m : L A) (k : A → L B) st
    (Q' : A → state → Prop) (Q : B → state → Prop) (E : state → Prop) :
  post m st Q' (λ _, False) →
  (∀ a st', Q' a st' → post (k a) st' Q E) →
  post (m ≫= k) st Q E.
Proof.
  intros Hm Hk. apply post_bind.
  eapply post_weaken; [exact Hm | exact Hk | done].
Qed.

Lemma only_registers_refl st : only_registers st st.
Proof. repeat split; [by intros ? ? ? | lia]. Qed.

Lemma only_registers_trans st1 st2 st3 :
  only_registers st1 st2 → only_registers st2 st3 → only_registers st1 st3.
Proof.
  intros ([Hl12 Hh12] & Hd12 & Hn12 & Hv12) ([Hl23 Hh23] & Hd23 & Hn23 & Hv23).
  split; [split; congruence |].
  split; [by eapply dict_grows_trans |].
  split; [lia |].
  intros name id Hname. rewrite <- (Hv12 name id Hname).
  by apply (Hv23 name), Hd12.
Qed.

Lemma only_registers_cache c st : only_registers st (set_cache c st).
Proof. repeat split; [by intros ? ? ? | cbn; lia]. Qed.

(** [_fixupParents] adds no Logger to the registry. *)
Lemma _fixupParents_loop_logger_inv name positions d key id :
  _fixupParents_loop name positions d !! key = Some (ELogger id) →
  d !! key = Some (ELogger id).
Proof.
  revert d. induction positions as [| i rest IH]; intros d; [done |].
  cbn [_fixupParents_loop]. destruct (0 <? i); [| done].
  destruct (d !! String.substring 0 i name) as [[id' |] |] eqn:Hsub;
    [done | by apply IH |].
  intros Hkey%IH.
  destruct (decide (String.substring 0 i name = key)) as [<- | Hne].
  - by rewrite lookup_insert_eq in Hkey.
  - by rewrite lookup_insert_ne in Hkey.
Qed.

Lemma register_inv name d id key id0 :
  _fixupParents name (<[name := ELogger id]> d) !! key = Some (ELogger id0) →
  (key = name ∧ id0 = id) ∨ (key ≠ name ∧ d !! key = Some (ELogger id0)).
Proof.
  intros Hkey. apply _fixupParents_loop_logger_inv in Hkey.
  destruct (decide (name = key)) as [<- | Hne].
  - rewrite lookup_insert_eq in Hkey. left. split; congruence.
  - rewrite lookup_insert_ne in Hkey by done. right. split; congruence.
Qed.

(** Registering a new Logger under a name that has none keeps the
    registry well formed, and nothing else changes. *)
Lemma register_wf name st :
  registry_wf st →
  (∀ id, loggerDict st !! name ≠ Some (ELogger id)) →
  let st' :=
    set_loggerDict
      (_fixupParents name (<[name := ELogger (next_id st)]> (loggerDict st)))
      (set_levels (<[next_id st := NOTSET]> (levels st))
         (set_next_id (S (next_id st)) st)) in
  registry_wf st' ∧ only_registers st st'.
Proof.
  intros [Hold Hinj] Hfree st'. split; [split |].
  - intros key id [[-> ->] | [_ Hkey]]%register_inv; cbn; [lia |].
    apply Hold in Hkey. lia.
  - intros n1 n2 id [[-> ->] | [Hn1 H1]]%register_inv
                    [[-> Heq] | [Hn2 H2]]%register_inv; try done.
    + apply Hold in H2. lia.
    + apply Hold in H1. lia.
    + by eapply Hinj.
  - split; [done |]. split; [| split; [cbn; lia |]].
    + intros key id Hkey. by apply register_keeps.
    + intros key id Hkey%Hold. cbn. rewrite lookup_insert_ne; [done | lia].
Qed.

(** [logging.getLogger] returns the logger of the name and does
    nothing but, at most, register it. *)
Lemma logging_getLogger_registers name st :
  registry_wf st →
  post (logging_getLogger name) st
    (λ h st', registry_wf st' ∧ only_registers st st'
              ∧ resolves st' name h ∧ cache st' = cache st)
    (λ _, False).
Proof.
  intros Hwf. unfold logging_getLogger, resolves. case_decide as Hname.
  - apply post_ret.
    split; [exact Hwf | split; [apply only_registers_refl | done]].
  - unfold post, Manager_getLogger, mbind, L_bind, get. cbn.
    destruct (loggerDict st !! name) as [[id |] |] eqn:Hentry; cbn.
    + split; [exact Hwf | split; [apply only_registers_refl | eauto]].
    + destruct (register_wf name st Hwf) as [Hwf' Hreg]; [congruence |].
      split; [exact Hwf' | split; [exact Hreg |]].
      split; [eauto using register_lookup | done].
    + destruct (register_wf name st Hwf) as [Hwf' Hreg]; [congruence |].
      split; [exact Hwf' | split; [exact Hreg |]].
      split; [eauto using register_lookup | done].
Qed.

(** [get_logger] does nothing but, at most, register the name, and move
    entries of its cache. *)
Lemma get_logger_registers name st :
  registry_wf st →
  post (get_logger name) st
    (λ _ st', registry_wf st' ∧ only_registers st st') (λ _, False).
Proof.
  intros Hwf. unfold get_logger, lru_cache.
  apply post_bind, post_get.
  destruct (assoc name (cache st)) as [h |].
  - apply post_bind, post_modify, post_ret.
    split; [exact Hwf | apply only_registers_cache].
  - eapply post_then; [by apply logging_getLogger_registers |].
    intros h st1 (Hwf1 & Hreg1 & _). cbn beta.
    apply post_bind, post_modify, post_ret.
    split; [exact Hwf1 |].
    eapply only_registers_trans; [exact Hreg1 | apply only_registers_cache].
Qed.

(** ** The third-party loggers *)

(** One step of the last lines of [setup_logging]: the Logger of the
    name is there with level WARNING, and the loggers that had WARNING
    keep it. *)
Lemma silence_registers name st :
  ¬ root_name name → registry_wf st →
  post (l ← logging_getLogger name ; setLevel l (PyInt WARNING)) st
    (λ _ st',
       registry_wf st' ∧ cache st' = cache st ∧ next_id st ≤ next_id st'
       ∧ level_of st' name = Some WARNING
       ∧ ∀ name', level_of st name' = Some WARNING →
                  level_of st' name' = Some WARNING)
    (λ _, False).
Proof.
  intros Hname Hwf.
  eapply post_then; [by apply logging_getLogger_registers |].
  intros h st1 (Hwf1 & (_ & Hgrows & Hnext & Hlevels) & Hres & Hcache).
  unfold resolves in Hres. rewrite decide_False in Hres by exact Hname.
  destruct Hres as (id & -> & Hid).
  unfold post. cbn.
  split; [exact Hwf1 | split; [exact Hcache | split; [exact Hnext | split]]].
  - unfold level_of. cbn. by rewrite Hid, lookup_insert_eq.
  - intros name'. unfold level_of. cbn.
    destruct (loggerDict st !! name') as [[id' |] |] eqn:Hname'; try done.
    rewrite (Hgrows name' id' Hname'). intros Hwarning.
    destruct (decide (id = id')) as [<- | Hne].
    + by rewrite lookup_insert_eq.
    + rewrite lookup_insert_ne by done.
      by rewrite (Hlevels name' id' Hname').
Qed.

Ltac not_root :=
  let H := fresh "Hname" in
  unfold root_name; intros [H | H]; discriminate H.

(** A call of [setup_logging] that finds an integer level keeps the
    registry well formed and the cache of [get_logger] as it is, and
    leaves the five third-party loggers at WARNING. *)
Lemma setup_logging_silences s n st :
  getattr_logging (upper s) (PyInt INFO) = PyInt n →
  registry_wf st →
  post (setup_logging s) st
    (λ _ st',
       registry_wf st' ∧ cache st' = cache st
       ∧ Forall (λ name, level_of st' name = Some WARNING) third_party)
    (λ _, False).
Proof.
  intros Hlevel Hwf. unfold setup_logging. rewrite Hlevel.
  apply post_bind. unfold logging_getLogger at 1.
  case_decide as Hroot; [| by destruct Hroot; left].
  apply post_ret. apply post_bind.
  change (setLevel RootLogger (PyInt n) st) with (Return tt, set_root_level n st).
  unfold post at 1.
  apply post_bind, post_modify, post_bind.
  unfold post at 1. cbn [StreamHandler new_object mbind L_bind mret L_ret].
  apply post_bind, post_modify.
  set (st1 := set_root_handlers _ _).
  assert (registry_wf st1 ∧ cache st1 = cache st) as [Hwf1 Hc1].
  { destruct Hwf as [Hold Hinj]. split; [split; [| exact Hinj] | done].
    intros name id Hid%Hold. cbn. lia. }
  clearbody st1.
  eapply post_then; [apply silence_registers; [not_root | exact Hwf1] |].
  intros [] st2 (Hwf2 & Hc2 & _ & Hx2 & _). cbn beta.
  eapply post_then; [apply silence_registers; [not_root | exact Hwf2] |].
  intros [] st3 (Hwf3 & Hc3 & _ & Hc'3 & Hk3). cbn beta.
  eapply post_then; [apply silence_registers; [not_root | exact Hwf3] |].
  intros [] st4 (Hwf4 & Hc4 & _ & Ho4 & Hk4). cbn beta.
  eapply post_then; [apply silence_registers; [not_root | exact Hwf4] |].
  intros [] st5 (Hwf5 & Hc5 & _ & Hq5 & Hk5). cbn beta.
  eapply post_weaken;
    [apply silence_registers; [not_root | exact Hwf5] | | done].
  intros [] st6 (Hwf6 & Hc6 & _ & Hu6 & Hk6). cbn beta.
  split; [exact Hwf6 | split; [congruence |]].
  unfold third_party. repeat apply Forall_cons_2; auto 10.
Qed.

(** Whatever level was asked for, when [setup_logging] returns the
    loggers of httpx, httpcore, openai, qdrant_client and urllib3 are
    registered and their own level is WARNING. *)
Theorem setup_logging_silences_third_party s st name :
  registry_wf st →
  fst (setup_logging s st) = Return tt →
  name ∈ third_party →
  level_of (snd (setup_logging s st)) name = Some WARNING.
Proof.
  intros Hwf [n Hlevel]%setup_logging_returns_inv Hname.
  destruct (post_returns _ _ _ (setup_logging_silences s n st Hlevel Hwf))
    as ([] & st' & Hrun & _ & _ & Hall).
  rewrite Hrun. cbn [snd].
  by apply (proj1 (Forall_forall _ _) Hall).
Qed.

(** ** What every call keeps *)

Lemma setup_logging_wf s st :
  registry_wf st →
  registry_wf (snd (setup_logging s st))
  ∧ cache (snd (setup_logging s st)) = cache st.
Proof.
  intros Hwf.
  destruct (getattr_logging_cases (upper s)) as [[n Hv] | [[_ Hv] | [_ Hv]]].
  - destruct (post_returns _ _ _ (setup_logging_silences s n st Hv Hwf))
      as ([] & st' & Hrun & Hwf' & Hc' & _).
    by rewrite Hrun.
  - by erewrite setup_logging_not_a_level by (exact Hv || reflexivity).
  - by erewrite setup_logging_not_a_level by (exact Hv || reflexivity).
Qed.

Lemma exec_wf st c : registry_wf st → registry_wf (exec st c).
Proof.
  intros Hwf. destruct c as [lvl | lvl | name | name]; cbn [exec].
  - by apply setup_logging_wf.
  - by apply setup_logging_wf.
  - destruct (post_returns _ _ _ (get_logger_registers name st Hwf))
      as (h & st' & Hrun & Hwf' & _).
    by rewrite Hrun.
  - destruct (post_returns _ _ _ (logging_getLogger_registers name st Hwf))
      as (h & st' & Hrun & Hwf' & _).
    by rewrite Hrun.
Qed.

Lemma exec_all_wf cs st : registry_wf st → registry_wf (exec_all cs st).
Proof.
  revert st. induction cs as [| c cs IH]; intros st Hwf; [done |].
  by apply IH, exec_wf.
Qed.

Lemma initial_state_wf : registry_wf initial_state.
Proof. split; [intros name id Hid | intros n1 n2 id Hid]; done. Qed.

(** ** The handlers of the root logger *)

(** With at most one handler attached, the loop detaches it, and the
    new stream handler is the only one left. *)
Lemma setup_logging_single_handler s n st :
  getattr_logging (upper s) (PyInt INFO) = PyInt n →
  length (root_handlers st) ≤ 1 →
  root_handlers (snd (setup_logging s st)) = [stream_handler (next_id st)].
Proof.
  intros Hlevel Hlen.
  destruct (post_returns _ _ _ (setup_logging_int_level s n st Hlevel))
    as ([] & st' & Hrun & _ & Hhandlers).
  rewrite Hrun. cbn [snd]. rewrite Hhandlers.
  rewrite remove_existing_handlers_every_second.
  - destruct (root_handlers st) as [| h [| h' rest]]; [done | done |].
    cbn in Hlen. lia.
  - destruct (root_handlers st) as [| h [| h' rest]]; cbn in *;
      [apply NoDup_nil_2 | apply NoDup_singleton | lia].
Qed.

Lemma exec_handlers st c :
  registry_wf st → length (root_handlers st) ≤ 1 →
  length (root_handlers (exec st c)) ≤ 1.
Proof.
  intros Hwf Hlen.
  assert (∀ lvl, length (root_handlers (snd (setup_logging lvl st))) ≤ 1)
    as Hsetup.
  { intros lvl.
    destruct (getattr_logging_cases (upper lvl)) as [[n Hv] | [[_ Hv] | [_ Hv]]].
    - by rewrite (setup_logging_single_handler lvl n st Hv Hlen).
    - by erewrite setup_logging_not_a_level by (exact Hv || reflexivity).
    - by erewrite setup_logging_not_a_level by (exact Hv || reflexivity). }
  destruct c as [lvl | lvl | name | name]; cbn [exec]; [done | done | |].
  - destruct (post_returns _ _ _ (get_logger_registers name st Hwf))
      as (h & st' & Hrun & _ & [_ Hsame] & _).
    rewrite Hrun. cbn [snd]. by rewrite Hsame.
  - destruct (post_returns _ _ _ (logging_getLogger_registers name st Hwf))
      as (h & st' & Hrun & _ & ([_ Hsame] & _) & _).
    rewrite Hrun. cbn [snd]. by rewrite Hsame.
Qed.

Lemma exec_all_handlers cs st :
  registry_wf st → length (root_handlers st) ≤ 1 →
  length (root_handlers (exec_all cs st)) ≤ 1.
Proof.
  revert st. induction cs as [| c cs IH]; intros st Hwf Hlen; [done |].
  apply IH; [by apply exec_wf | by apply exec_handlers].
Qed.

(** In a process where only the functions of [logger.py] touch the
    handlers of the root logger, whenever [setup_logging] returns, the
    root logger has exactly one handler: the stream handler the call
    created, with the formatter of the module. *)
Theorem setup_logging_one_handler_in_fresh_process cs s :
  fst (setup_logging s (exec_all cs initial_state)) = Return tt →
  root_handlers (snd (setup_logging s (exec_all cs initial_state))) =
    [stream_handler (next_id (exec_all cs initial_state))].
Proof.
  intros [n Hlevel]%setup_logging_returns_inv.
  apply (setup_logging_single_handler s n); [done |].
  apply exec_all_handlers; [apply initial_state_wf | cbn; lia].
Qed.

(** Called with [k] distinct handlers attached, [setup_logging] detaches
    the first, the third and so on, and leaves the second, the fourth
    and so on attached, followed by its new stream handler:
    [k / 2 + 1] handlers. *)
Theorem setup_logging_leaves_every_second_handler s st :
  fst (setup_logging s st) = Return tt →
  handlers_wf st →
  root_handlers (snd (setup_logging s st)) =
    every_second (root_handlers st) ++ [stream_handler (next_id st)]
  ∧ length (root_handlers (snd (setup_logging s st))) =
      Nat.div2 (length (root_handlers st)) + 1.
Proof.
  intros [n Hlevel]%setup_logging_returns_inv Hwf.
  destruct (setup_logging_handlers s n st Hlevel Hwf) as [_ Hhandlers].
  split; [exact Hhandlers |].
  by rewrite Hhandlers, length_app, every_second_length.
Qed.

(** ** [get_logger] and the registry *)

(** [logging.getLogger] of a name whose logger is there returns it and
    changes nothing. *)
Lemma logging_getLogger_of_resolved st name h :
  resolves st name h → logging_getLogger name st = (Return h, st).
Proof.
  unfold resolves, logging_getLogger. case_decide as Hname.
  - by intros ->.
  - intros (id & -> & Hid).
    unfold Manager_getLogger, mbind, L_bind, get. cbn. by rewrite Hid.
Qed.

Lemma get_logger_fst name st :
  cache_consistent st →
  fst (get_logger name st) = fst (logging_getLogger name st).
Proof.
  intros Hcache. unfold get_logger, lru_cache, mbind, L_bind, get. cbn.
  destruct (assoc name (cache st)) as [h |] eqn:Hhit.
  - apply assoc_elem, Hcache in Hhit.
    by rewrite (logging_getLogger_of_resolved st name h Hhit).
  - by destruct (logging_getLogger name st) as [[h | e] st'].
Qed.

(** The cache never changes what [get_logger] returns: at any point of
    the life of the process, [get_logger(name)] returns what
    [logging.getLogger(name)] would return there. *)
Theorem get_logger_agrees_with_logging_getLogger cs name :
  fst (get_logger name (exec_all cs initial_state)) =
  fst (logging_getLogger name (exec_all cs initial_state)).
Proof.
  apply get_logger_fst.
  apply exec_all_consistent, initial_state_consistent.
Qed.

(** Two lookups, with any calls between them: both return, and in the
    state the second leaves, each handle is the logger of its name. *)
Lemma get_logger_twice cs between n1 n2 :
  ∃ h1 h2 st4,
    fst (get_logger n1 (exec_all cs initial_state)) = Return h1
    ∧ fst (get_logger n2
             (exec_all between
                (snd (get_logger n1 (exec_all cs initial_state))))) =
        Return h2
    ∧ registry_wf st4 ∧ resolves st4 n1 h1 ∧ resolves st4 n2 h2.
Proof.
  destruct (exec_all_consistent cs initial_state initial_state_consistent)
    as [Hcache1 _].
  pose proof (exec_all_wf cs initial_state initial_state_wf) as Hwf1.
  destruct (post_returns _ _ _ (get_logger_resolves n1 _ Hcache1))
    as (h1 & st2 & Hrun1 & Hcache2 & _ & Hn1).
  destruct (post_returns _ _ _ (get_logger_registers n1 _ Hwf1))
    as (h1' & st2' & Hrun1' & Hwf2 & _).
  rewrite Hrun1 in Hrun1'. injection Hrun1' as <- <-.
  rewrite Hrun1. cbn [fst snd].
  destruct (exec_all_consistent between st2 Hcache2) as [Hcache3 Hgrows3].
  pose proof (exec_all_wf between st2 Hwf2) as Hwf3.
  destruct (post_returns _ _ _ (get_logger_resolves n2 _ Hcache3))
    as (h2 & st4 & Hrun2 & _ & Hgrows4 & Hn2).
  destruct (post_returns _ _ _ (get_logger_registers n2 _ Hwf3))
    as (h2' & st4' & Hrun2' & Hwf4 & _).
  rewrite Hrun2 in Hrun2'. injection Hrun2' as <- <-.
  rewrite Hrun2. cbn [fst].
  exists h1, h2, st4. repeat split; try done; try apply Hwf4.
  eapply resolves_grows; [| exact Hn1]. by eapply dict_grows_trans.
Qed.

(** In a well-formed registry two names have the same logger exactly
    when they are equal or both stand for the root logger. *)
Lemma resolves_same_iff st n1 n2 h1 h2 :
  registry_wf st → resolves st n1 h1 → resolves st n2 h2 →
  h1 = h2 ↔ n1 = n2 ∨ (root_name n1 ∧ root_name n2).
Proof.
  intros [_ Hinj]. unfold resolves, root_name.
  do 2 case_decide.
  - intros -> ->. tauto.
  - intros -> (id & -> & _). split; [done | intros [<- | [_ ?]]; tauto].
  - intros (id & -> & _) ->. split; [done | intros [-> | [? _]]; tauto].
  - intros (id1 & -> & H1) (id2 & -> & H2). split.
    + intros [= <-]. left. by eapply Hinj.
    + intros [<- | [? _]]; [congruence | tauto].
Qed.

(** Two calls of [get_logger], with any calls between them, return the
    same logger object exactly when the two names are equal or both are
    names of the root logger (the empty name and "root"): loggers of
    different names are different objects. *)
Theorem get_logger_same_object_iff_same_name cs between n1 n2 :
  fst (get_logger n1 (exec_all cs initial_state)) =
  fst (get_logger n2
         (exec_all between
            (snd (get_logger n1 (exec_all cs initial_state)))))
  ↔ n1 = n2 ∨ (root_name n1 ∧ root_name n2).
Proof.
  destruct (get_logger_twice cs between n1 n2)
    as (h1 & h2 & st4 & -> & -> & Hwf & Hn1 & Hn2).
  rewrite <- (resolves_same_iff st4 n1 n2 h1 h2 Hwf Hn1 Hn2).
  split; [by intros [= ->] | by intros ->].
Qed.

(** [get_logger] has no effect on the loggers that exist: the level and
    the handlers of the root logger are as before, and every registered
    Logger stays registered under its name with the level it had. *)
Theorem get_logger_changes_no_logger name st :
  registry_wf st →
  root_level (snd (get_logger name st)) = root_level st
  ∧ root_handlers (snd (get_logger name st)) = root_handlers st
  ∧ ∀ name' id,
      loggerDict st !! name' = Some (ELogger id) →
      loggerDict (snd (get_logger name st)) !! name' = Some (ELogger id)
      ∧ levels (snd (get_logger name st)) !! id = levels st !! id.
Proof.
  intros Hwf.
  destruct (post_returns _ _ _ (get_logger_registers name st Hwf))
    as (h & st' & Hrun & _ & [Hl Hh] & Hgrows & _ & Hlevels).
  rewrite Hrun. cbn [snd].
  split; [exact Hl | split; [exact Hh |]].
  intros name' id Hid. split; [by apply Hgrows | by apply (Hlevels name')].
Qed.

(** Objects of classes that have the same [__name__], whatever modules
    define the classes, get the same logger object from
    [LoggerMixin.logger]. *)
Theorem LoggerMixin_logger_shared_by_class_name cs between c1 c2 :
  class_name c1 = class_name c2 →
  ∃ h,
    fst (LoggerMixin_logger c1 (exec_all cs initial_state)) = Return h
    ∧ fst (LoggerMixin_logger c2
             (exec_all between
                (snd (LoggerMixin_logger c1 (exec_all cs initial_state))))) =
        Return h.
Proof.
  intros Hname. unfold LoggerMixin_logger. rewrite <- Hname.
  destruct (get_logger_twice cs between (class_name c1) (class_name c1))
    as (h1 & h2 & st4 & -> & -> & _ & Hn1 & Hn2).
  exists h1. split; [done |]. f_equal.
  by apply (resolves_functional st4 (class_name c1)).
Qed.

(** ** The size of the cache *)


Lemma cache_remove_subseteq key c : cache_remove key c ⊆ c.
Proof.
  intros kv Hin. unfold cache_remove in Hin.
  by apply list_elem_of_In, filter_In in Hin as [Hin%list_elem_of_In _].
Qed.







End logger_further.

(** ** Runs of the further properties *)

Section logger_further_runs.
Import logger logger_vocabulary logger_invariants.
Local Open Scope nat_scope.

Lemma setup_logging_mixed_case_warning :
  assoc (upper "Warning") _nameToLevel = Some WARNING
  ∧ fst (setup_logging "Warning" initial_state) = Return tt
  ∧ root_level (snd (setup_logging "Warning" initial_state)) = WARNING.
Proof.
  split; [reflexivity |].
  apply (setup_logging_level_name_in_any_case "Warning" WARNING initial_state).
  reflexivity.
Defined.

Lemma setup_logging_debug_quiets_openai :
  fst (setup_logging "DEBUG" initial_state) = Return tt
  ∧ level_of (snd (setup_logging "DEBUG" initial_state)) "openai" = Some WARNING.
Proof.
  split; [vm_compute; reflexivity |].
  apply (setup_logging_silences_third_party "DEBUG" initial_state "openai").
  - split; [intros name id Hid | intros n1 n2 id Hid]; done.
  - vm_compute. reflexivity.
  - apply list_elem_of_In. cbn. tauto.
Defined.

Lemma setup_logging_after_other_calls :
  fst (setup_logging "INFO"
         (exec_all [Call_setup_logging "DEBUG"; Call_get_logger "app";
                    Call_setup_log "verbose"] initial_state)) = Return tt
  ∧ root_handlers
      (snd (setup_logging "INFO"
              (exec_all [Call_setup_logging "DEBUG"; Call_get_logger "app";
                         Call_setup_log "verbose"] initial_state))) =
      [stream_handler
         (next_id (exec_all [Call_setup_logging "DEBUG"; Call_get_logger "app";
                             Call_setup_log "verbose"] initial_state))].
Proof.
  split; [vm_compute; reflexivity |].
  apply (setup_logging_one_handler_in_fresh_process
           [Call_setup_logging "DEBUG"; Call_get_logger "app";
            Call_setup_log "verbose"] "INFO").
  vm_compute. reflexivity.
Defined.

Lemma setup_logging_with_two_handlers :
  handlers_wf two_handlers_state
  ∧ root_handlers (snd (setup_logging "INFO" two_handlers_state)) =
      every_second (root_handlers two_handlers_state)
        ++ [stream_handler (next_id two_handlers_state)]
  ∧ length (root_handlers (snd (setup_logging "INFO" two_handlers_state))) =
      Nat.div2 (length (root_handlers two_handlers_state)) + 1.
Proof.
  assert (handlers_wf two_handlers_state) as Hwf.
  { split.
    - cbn. apply NoDup_cons. split; [| apply NoDup_singleton].
      intros Hin%list_elem_of_In. cbn in Hin. lia.
    - intros h Hin%list_elem_of_In. cbn in Hin.
      destruct Hin as [<- | [<- | []]]; cbn; lia. }
  split; [exact Hwf |].
  apply (setup_logging_leaves_every_second_handler "INFO" two_handlers_state);
    [vm_compute; reflexivity | exact Hwf].
Defined.

Lemma get_logger_after_setup_logging :
  loggerDict (exec_all [Call_setup_logging "INFO"] initial_state) !! "httpx" =
    Some (ELogger 1)
  ∧ root_level (snd (get_logger "app"
                       (exec_all [Call_setup_logging "INFO"] initial_state))) =
      root_level (exec_all [Call_setup_logging "INFO"] initial_state)
  ∧ root_handlers (snd (get_logger "app"
                          (exec_all [Call_setup_logging "INFO"] initial_state))) =
      root_handlers (exec_all [Call_setup_logging "INFO"] initial_state)
  ∧ ∀ name' id,
      loggerDict (exec_all [Call_setup_logging "INFO"] initial_state) !! name' =
        Some (ELogger id) →
      loggerDict (snd (get_logger "app"
                         (exec_all [Call_setup_logging "INFO"] initial_state)))
        !! name' = Some (ELogger id)
      ∧ levels (snd (get_logger "app"
                       (exec_all [Call_setup_logging "INFO"] initial_state)))
          !! id =
        levels (exec_all [Call_setup_logging "INFO"] initial_state) !! id.
Proof.
  split; [vm_compute; reflexivity |].
  apply (get_logger_changes_no_logger "app"
           (exec_all [Call_setup_logging "INFO"] initial_state)).
  apply exec_all_wf.
  split; [intros name id Hid | intros n1 n2 id Hid]; done.
Defined.

Lemma LoggerMixin_two_service_classes :
  class_module ingest_service ≠ class_module query_service
  ∧ ∃ h,
      fst (LoggerMixin_logger ingest_service initial_state) = Return h
      ∧ fst (LoggerMixin_logger query_service
               (exec_all [Call_setup_logging "INFO"]
                  (snd (LoggerMixin_logger ingest_service initial_state)))) =
          Return h.
Proof.
  split; [discriminate |].
  apply (LoggerMixin_logger_shared_by_class_name
           [] [Call_setup_logging "INFO"] ingest_service query_service).
  reflexivity.
Defined.

End logger_further_runs.
